(** * arc-local-store-preferences: a shallow embedding

    The repository holds two custom elements that keep key/value state in the
    browser's [localStorage]: a preferences store and a workspace store, each
    in a legacy (Polymer) and a current (LitElement) variant.  This file
    embeds the value codec ([wrap]/[unwrap]), the storage loops ([load],
    [store], [clear]), the debounced workspace write and the event handlers,
    and proves the properties the specification states about them.

    Modelling conventions.
    - JavaScript values are the inductive [jsval].  Numbers are the integers
      ([Z]); strings are sequences of 8-bit code units ([string]).  Numbers
      with a fraction, numbers that print with an exponent (magnitude from
      10^21), [NaN], the infinities, the negative zero and code units above
      255 have no counterpart in [jsval]: the JSON functions below are
      those of the platform on the rest, and statements about stored texts
      are made through [wrap] and [unwrap] rather than through a round
      trip.
    - Objects are association lists of own properties in enumeration
      order.  The object that [load] fills also carries its prototype,
      because the write [result[settingKey] = value] follows the prototype
      chain ([assign]): for the name [__proto__] it reaches the setter of
      [Object.prototype] and creates no own property.
    - [localStorage] is an ordered list of entries with unique keys and a
      quota on the stored characters; [setItem] is the only call that may
      throw.
    - Promises are modelled by their settled state. *)

From Stdlib Require Import String Ascii List ZArith NArith Lia Bool.
From Stdlib Require Import Decimal DecimalFacts DecimalString DecimalPos DecimalN.
Import ListNotations.
Local Open Scope string_scope.

(** ** Strings *)

Definition dquote : ascii := "034"%char.
Definition backslash : ascii := "092"%char.

Definition str1 (c : ascii) : string := String c EmptyString.

(** [s.indexOf(p)]: the position of the first occurrence of [p] in [s],
    or [-1]. *)
Fixpoint indexOf (s p : string) : Z :=
  if prefix p s then 0%Z
  else match s with
       | EmptyString => (-1)%Z
       | String _ s' =>
           let i := indexOf s' p in
           if (i =? -1)%Z then (-1)%Z else (i + 1)%Z
       end.

(** [s.substr(n)]: [s] without its first [n] code units. *)
Fixpoint substr (s : string) (n : nat) {struct n} : string :=
  match n with
  | O => s
  | S n' => match s with
            | String _ s' => substr s' n'
            | EmptyString => EmptyString
            end
  end.

(** ** JavaScript values *)

#[local] Unset Elimination Schemes.
Inductive jsval : Type :=
| VUndefined
| VNull
| VBool (b : bool)
| VNum (n : Z)
| VStr (s : string)
| VArr (elems : list jsval)
| VObj (props : list (string * jsval)).
#[local] Set Elimination Schemes.

Section jsval_induction.
Variable P : jsval -> Prop.
Hypothesis Hundef : P VUndefined.
Hypothesis Hnull : P VNull.
Hypothesis Hbool : forall b, P (VBool b).
Hypothesis Hnum : forall n, P (VNum n).
Hypothesis Hstr : forall s, P (VStr s).
Hypothesis Harr : forall l, Forall P l -> P (VArr l).
Hypothesis Hobj : forall l, Forall (fun kv => P (snd kv)) l -> P (VObj l).

Fixpoint jsval_nested_ind (v : jsval) : P v :=
  match v with
  | VUndefined => Hundef
  | VNull => Hnull
  | VBool b => Hbool b
  | VNum n => Hnum n
  | VStr s => Hstr s
  | VArr l =>
      Harr l ((fix go (l : list jsval) : Forall P l :=
                 match l with
                 | [] => Forall_nil _
                 | x :: r => Forall_cons x (jsval_nested_ind x) (go r)
                 end) l)
  | VObj l =>
      Hobj l ((fix go (l : list (string * jsval))
                 : Forall (fun kv => P (snd kv)) l :=
                 match l with
                 | [] => Forall_nil _
                 | kv :: r =>
                     Forall_cons kv (jsval_nested_ind (snd kv)) (go r)
                 end) l)
  end.
End jsval_induction.

(** [!!v] *)
Definition truthy (v : jsval) : bool :=
  match v with
  | VUndefined | VNull => false
  | VBool b => b
  | VNum n => negb (n =? 0)%Z
  | VStr s => negb (s =? "")
  | VArr _ | VObj _ => true
  end.

(** [typeof v] *)
Definition typeof (v : jsval) : string :=
  match v with
  | VUndefined => "undefined"
  | VNull => "object"
  | VBool _ => "boolean"
  | VNum _ => "number"
  | VStr _ => "string"
  | VArr _ | VObj _ => "object"
  end.

(** Decimal numeral of an integer, as [Number.prototype.toString] and
    [JSON.stringify] print an integer of magnitude below 10^21.  From there
    on the platform prints an exponent, which this function does not. *)
Definition Number_toString (n : Z) : string :=
  match n with
  | Z0 => "0"
  | Zpos p => NilEmpty.string_of_uint (Pos.to_uint p)
  | Zneg p => String "-" (NilEmpty.string_of_uint (Pos.to_uint p))
  end.

(** The abstract operation ToString, applied by template literals, by
    [indexOf] and by [setItem] to their arguments. *)
Fixpoint ToString (v : jsval) : string :=
  match v with
  | VUndefined => "undefined"
  | VNull => "null"
  | VBool b => if b then "true" else "false"
  | VNum n => Number_toString n
  | VStr s => s
  | VArr l =>
      String.concat "," (map (fun x => match x with
                                | VUndefined | VNull => ""
                                | _ => ToString x
                                end) l)
  | VObj _ => "[object Object]"
  end.

(** Own enumerable property names, [Object.keys(v)]. *)
Definition index_names (n : nat) : list string :=
  map (fun i => NilEmpty.string_of_uint (Nat.to_uint i)) (seq 0 n).

Definition Object_keys (v : jsval) : list string :=
  match v with
  | VStr s => index_names (String.length s)
  | VArr l => index_names (List.length l)
  | VObj l => map fst l
  | _ => []
  end.

Fixpoint obj_get (l : list (string * jsval)) (k : string) : jsval :=
  match l with
  | [] => VUndefined
  | (k', v) :: r => if k' =? k then v else obj_get r k
  end.

(** An own data property [k] set to [v] (CreateDataProperty, as
    [JSON.parse] does for each member): replace in place or append. *)
Fixpoint obj_set (l : list (string * jsval)) (k : string) (v : jsval)
  : list (string * jsval) :=
  match l with
  | [] => [(k, v)]
  | (k', v') :: r =>
      if k' =? k then (k, v) :: r else (k', v') :: obj_set r k v
  end.

Definition index_of_name (k : string) : option nat :=
  match NilEmpty.uint_of_string k with
  | Some d =>
      if NilEmpty.string_of_uint (Nat.to_uint (Nat.of_uint d)) =? k
      then Some (Nat.of_uint d) else None
  | None => None
  end.

(** [v[k]] for a property name produced by [Object.keys(v)]. *)
Definition get_prop (v : jsval) (k : string) : jsval :=
  match v with
  | VObj l => obj_get l k
  | VArr l =>
      match index_of_name k with
      | Some i => nth i l VUndefined
      | None => VUndefined
      end
  | VStr s =>
      match index_of_name k with
      | Some i => match get i s with
                  | Some c => VStr (str1 c)
                  | None => VUndefined
                  end
      | None => VUndefined
      end
  | _ => VUndefined
  end.

(** ** JSON text *)

Definition hex_digit (n : N) : ascii :=
  ascii_of_N (if (n <? 10)%N then 48 + n else 87 + n).

(** One code unit inside a JSON string literal, as [JSON.stringify] quotes
    it: the two-character escapes, [\u00xx] for the other control
    characters, the character itself otherwise. *)
Definition escape_char (c : ascii) : string :=
  let n := N_of_ascii c in
  if (n =? 34)%N then String backslash (str1 dquote)
  else if (n =? 92)%N then String backslash (str1 backslash)
  else if (n =? 8)%N then String backslash "b"
  else if (n =? 12)%N then String backslash "f"
  else if (n =? 10)%N then String backslash "n"
  else if (n =? 13)%N then String backslash "r"
  else if (n =? 9)%N then String backslash "t"
  else if (n <? 32)%N then
    String backslash
      (String "u" (String "0" (String "0"
         (String (hex_digit (n / 16)) (str1 (hex_digit (n mod 16)))))))
  else str1 c.

Fixpoint escape (s : string) : string :=
  match s with
  | EmptyString => EmptyString
  | String c r => escape_char c ++ escape r
  end.

Definition quote (s : string) : string :=
  String dquote (escape s ++ str1 dquote).

(** [JSON.stringify(v)]; [None] is the result [undefined].  An [undefined]
    array element prints as [null], an [undefined] property is left out. *)
Fixpoint JSON_stringify (v : jsval) : option string :=
  match v with
  | VUndefined => None
  | VNull => Some "null"
  | VBool b => Some (if b then "true" else "false")
  | VNum n => Some (Number_toString n)
  | VStr s => Some (quote s)
  | VArr l =>
      Some ("[" ++ String.concat ","
                     (map (fun x => match JSON_stringify x with
                                    | Some t => t
                                    | None => "null"
                                    end) l) ++ "]")
  | VObj l =>
      Some ("{" ++ String.concat ","
                     (flat_map (fun kv => match JSON_stringify (snd kv) with
                                          | Some t => [quote (fst kv) ++ ":" ++ t]
                                          | None => []
                                          end) l) ++ "}")
  end.

Definition is_ws (c : ascii) : bool :=
  let n := N_of_ascii c in
  ((n =? 32) || (n =? 9) || (n =? 10) || (n =? 13))%N.

Fixpoint skip_ws (s : string) : string :=
  match s with
  | String c r => if is_ws c then skip_ws r else s
  | EmptyString => EmptyString
  end.

Definition is_digit (c : ascii) : bool :=
  let n := N_of_ascii c in ((48 <=? n) && (n <=? 57))%N.

Fixpoint span_digits (s : string) : string * string :=
  match s with
  | String c r =>
      if is_digit c
      then let (ds, r') := span_digits r in (String c ds, r')
      else (EmptyString, s)
  | EmptyString => (EmptyString, EmptyString)
  end.

Definition starts_fraction (s : string) : bool :=
  match s with
  | String c _ => ((c =? ".") || (c =? "e") || (c =? "E"))%char
  | EmptyString => false
  end.

(** An unsigned JSON integer: a single [0], or a digit sequence that does
    not start with [0].  A fraction or an exponent is outside the model. *)
Definition parse_unsigned (s : string) : option (N * string) :=
  let (ds, r) := span_digits s in
  match ds with
  | EmptyString => None
  | String c ds' =>
      if ((c =? "0")%char && negb (ds' =? "")) || starts_fraction r
      then None
      else match NilEmpty.uint_of_string ds with
           | Some d => Some (N.of_uint d, r)
           | None => None
           end
  end.

Definition parse_number (s : string) : option (jsval * string) :=
  match s with
  | String "-" r =>
      match parse_unsigned r with
      | Some (n, r') => Some (VNum (- Z.of_N n), r')
      | None => None
      end
  | _ =>
      match parse_unsigned s with
      | Some (n, r') => Some (VNum (Z.of_N n), r')
      | None => None
      end
  end.

Definition hex_value (c : ascii) : option N :=
  let n := N_of_ascii c in
  if ((48 <=? n) && (n <=? 57))%N then Some (n - 48)%N
  else if ((97 <=? n) && (n <=? 102))%N then Some (n - 87)%N
  else if ((65 <=? n) && (n <=? 70))%N then Some (n - 55)%N
  else None.

(** The code unit written [\uh1h2h3h4]; [None] when a digit is not
    hexadecimal or the code unit is above 255. *)
Definition unicode_escape (h1 h2 h3 h4 : ascii) : option ascii :=
  match hex_value h1, hex_value h2, hex_value h3, hex_value h4 with
  | Some a, Some b, Some c, Some d =>
      let n := (((a * 16 + b) * 16 + c) * 16 + d)%N in
      if (n <? 256)%N then Some (ascii_of_N n) else None
  | _, _, _, _ => None
  end.

Definition simple_escape (e : ascii) : option ascii :=
  let n := N_of_ascii e in
  if (n =? 34)%N then Some dquote
  else if (n =? 92)%N then Some backslash
  else if (n =? 47)%N then Some "/"%char
  else if (n =? 98)%N then Some "008"%char
  else if (n =? 102)%N then Some "012"%char
  else if (n =? 110)%N then Some "010"%char
  else if (n =? 114)%N then Some "013"%char
  else if (n =? 116)%N then Some "009"%char
  else None.

(** The characters of a string literal after its opening quote, up to and
    including the closing quote. *)
Fixpoint parse_chars (s : string) : option (string * string) :=
  match s with
  | EmptyString => None
  | String c r =>
      if (c =? dquote)%char then Some (EmptyString, r)
      else if (c =? backslash)%char then
        match r with
        | String e r1 =>
            if (e =? "u")%char then
              match r1 with
              | String h1 (String h2 (String h3 (String h4 r2))) =>
                  match unicode_escape h1 h2 h3 h4, parse_chars r2 with
                  | Some ch, Some (cs, rest) => Some (String ch cs, rest)
                  | _, _ => None
                  end
              | _ => None
              end
            else
              match simple_escape e, parse_chars r1 with
              | Some ch, Some (cs, rest) => Some (String ch cs, rest)
              | _, _ => None
              end
        | EmptyString => None
        end
      else if (N_of_ascii c <? 32)%N then None
      else match parse_chars r with
           | Some (cs, rest) => Some (String c cs, rest)
           | None => None
           end
  end.

Definition strip_prefix (p s : string) : option string :=
  if prefix p s then Some (substr s (String.length p)) else None.

(** The members of a parsed object, in source order; a repeated name keeps
    its first position and its last value. *)
Definition build_object (l : list (string * jsval)) : list (string * jsval) :=
  fold_left (fun acc kv => obj_set acc (fst kv) (snd kv)) l [].

Fixpoint parse_value (fuel : nat) (s : string) : option (jsval * string) :=
  match fuel with
  | O => None
  | S f =>
      match skip_ws s with
      | EmptyString => None
      | String c r as t =>
          if (c =? "n")%char then
            option_map (fun r' => (VNull, r')) (strip_prefix "null" t)
          else if (c =? "t")%char then
            option_map (fun r' => (VBool true, r')) (strip_prefix "true" t)
          else if (c =? "f")%char then
            option_map (fun r' => (VBool false, r')) (strip_prefix "false" t)
          else if (c =? dquote)%char then
            option_map (fun p => (VStr (fst p), snd p)) (parse_chars r)
          else if (c =? "[")%char then
            match skip_ws r with
            | String "]" r' => Some (VArr [], r')
            | _ => option_map (fun p => (VArr (fst p), snd p))
                              (parse_elements f r)
            end
          else if (c =? "{")%char then
            match skip_ws r with
            | String "}" r' => Some (VObj [], r')
            | _ => option_map (fun p => (VObj (build_object (fst p)), snd p))
                              (parse_members f r)
            end
          else parse_number t
      end
  end
with parse_elements (fuel : nat) (s : string)
  : option (list jsval * string) :=
  match fuel with
  | O => None
  | S f =>
      match parse_value f s with
      | Some (v, r) =>
          match skip_ws r with
          | String c r' =>
              if (c =? ",")%char then
                option_map (fun p => (v :: fst p, snd p)) (parse_elements f r')
              else if (c =? "]")%char then Some ([v], r')
              else None
          | EmptyString => None
          end
      | None => None
      end
  end
with parse_members (fuel : nat) (s : string)
  : option (list (string * jsval) * string) :=
  match fuel with
  | O => None
  | S f =>
      match skip_ws s with
      | String c r =>
          if (c =? dquote)%char then
            match parse_chars r with
            | Some (k, r1) =>
                match skip_ws r1 with
                | String ":" r2 =>
                    match parse_value f r2 with
                    | Some (v, r3) =>
                        match skip_ws r3 with
                        | String c' r4 =>
                            if (c' =? ",")%char then
                              option_map (fun p => ((k, v) :: fst p, snd p))
                                         (parse_members f r4)
                            else if (c' =? "}")%char then Some ([(k, v)], r4)
                            else None
                        | EmptyString => None
                        end
                    | None => None
                    end
                | _ => None
                end
            | None => None
            end
          else None
      | EmptyString => None
      end
  end.

(** [JSON.parse(s)] for a text whose numerals are integers and whose
    [\u] escapes name code units below 256; [None] is a thrown
    [SyntaxError].  A numeral with a fraction or an exponent and a [\u]
    escape from 0100 on, which the platform accepts, have no value in
    [jsval] and give [None] as well. *)
Definition JSON_parse (s : string) : option jsval :=
  match parse_value (S (String.length s)) s with
  | Some (v, r) => if skip_ws r =? "" then Some v else None
  | None => None
  end.

(** ** The codec
    [wrap] and [unwrap] of src/ArcLocalStorePreferences.js; the legacy
    elements carry the same two functions as the methods [_wrap] and
    [_unwrap]. *)

Definition wrap (value : jsval) : jsval :=
  if (typeof value =? "undefined") || (match value with VNull => true | _ => false end)
  then value
  else match JSON_stringify (VObj [("value", value)]) with
       | Some t => VStr t
       | None => VUndefined
       end.

(** [data.value]; reading a property of [null] or [undefined] throws. *)
Definition read_value (data : jsval) : option jsval :=
  match data with
  | VUndefined | VNull => None
  | VObj l => Some (obj_get l "value")
  | _ => Some VUndefined
  end.

Definition unwrap (value : jsval) : jsval :=
  if negb (truthy value) || negb (typeof value =? "string") then value
  else match value with
       | VStr s =>
           match JSON_parse s with
           | Some data =>
               match read_value data with
               | Some v => v
               | None => VUndefined
               end
           | None => VUndefined
           end
       | _ => value
       end.

(** A value that [JSON.stringify] and [JSON.parse] carry without loss: no
    [undefined] anywhere inside, and no property name twice in an object. *)
Fixpoint distinct (l : list string) : bool :=
  match l with
  | [] => true
  | k :: r => negb (existsb (String.eqb k) r) && distinct r
  end.

Fixpoint serializable (v : jsval) : bool :=
  match v with
  | VUndefined => false
  | VArr l => forallb serializable l
  | VObj l =>
      forallb (fun kv => serializable (snd kv)) l && distinct (map fst l)
  | _ => true
  end.

(** Fuel that [parse_value] needs to read back the text of a value. *)
Fixpoint sz (v : jsval) : nat :=
  match v with
  | VArr l => S (list_sum (map (fun x => S (sz x)) l))
  | VObj l => S (list_sum (map (fun kv => S (sz (snd kv))) l))
  | _ => 1
  end.


(** ** Outcomes *)

Inductive error : Type :=
| QuotaExceededError
| TypeError
| Error (message : string).

(** The outcome of a synchronous call. *)
Inductive completion (A : Type) : Type :=
| Ok (a : A)
| Throw (e : error).
Arguments Ok {A} a.
Arguments Throw {A} e.

(** A promise, by its settled state. *)
Inductive promise : Type :=
| Resolved (v : jsval)
| Rejected (e : error).

(** [a || b] *)
Definition js_or (a b : jsval) : jsval := if truthy a then a else b.

(** ** localStorage
    The entries in the order [key(i)] enumerates them, with unique keys.
    [setItem] replaces in place or appends, and throws when the stored
    characters would exceed the quota; [removeItem] keeps the order of the
    entries that stay. *)

Record Storage : Type := { items : list (string * string); quota : nat }.

Definition Storage_length (st : Storage) : nat := List.length (items st).

(** [localStorage.key(i)]; [None] is [null]. *)
Definition key (st : Storage) (i : nat) : option string :=
  option_map fst (nth_error (items st) i).

Fixpoint assoc_get (l : list (string * string)) (k : string) : option string :=
  match l with
  | [] => None
  | (k', v) :: r => if k' =? k then Some v else assoc_get r k
  end.

Fixpoint assoc_set (l : list (string * string)) (k v : string)
  : list (string * string) :=
  match l with
  | [] => [(k, v)]
  | (k', v') :: r =>
      if k' =? k then (k, v) :: r else (k', v') :: assoc_set r k v
  end.

Fixpoint assoc_remove (l : list (string * string)) (k : string)
  : list (string * string) :=
  match l with
  | [] => []
  | (k', v) :: r => if k' =? k then r else (k', v) :: assoc_remove r k
  end.

Definition usage (l : list (string * string)) : nat :=
  list_sum (map (fun kv => String.length (fst kv) + String.length (snd kv)) l).

(** [localStorage.getItem(k)]; [None] is [null]. *)
Definition getItem (st : Storage) (k : string) : option string :=
  assoc_get (items st) k.

(** [localStorage.setItem(k, v)]; [None] is a thrown [QuotaExceededError]. *)
Definition setItem (st : Storage) (k v : string) : option Storage :=
  let l := assoc_set (items st) k v in
  if (usage l <=? quota st)%nat then Some {| items := l; quota := quota st |}
  else None.

Definition removeItem (st : Storage) (k : string) : Storage :=
  {| items := assoc_remove (items st) k; quota := quota st |}.

Definition item_value (st : Storage) (k : string) : jsval :=
  match getItem st k with
  | Some s => VStr s
  | None => VNull
  end.

Definition wf_storage (st : Storage) : Prop := NoDup (map fst (items st)).

(** ** The window
    The storage area, the calls of [setItem] made so far, the
    [settings-changed] events dispatched so far as (name, value), and the
    timer queue of [setTimeout]/[clearTimeout] with a logical clock in
    milliseconds. *)

Record World : Type := {
  ls : Storage;
  setItem_calls : list (string * string);
  dispatched : list (jsval * jsval);
  now : nat;
  timers : list (positive * nat);
  next_timer : positive
}.

Definition set_ls (w : World) (st : Storage) : World :=
  {| ls := st; setItem_calls := setItem_calls w; dispatched := dispatched w;
     now := now w; timers := timers w; next_timer := next_timer w |}.

Definition log_setItem (w : World) (k v : string) : World :=
  {| ls := ls w; setItem_calls := (setItem_calls w ++ [(k, v)])%list;
     dispatched := dispatched w;
     now := now w; timers := timers w; next_timer := next_timer w |}.

Definition log_event (w : World) (name value : jsval) : World :=
  {| ls := ls w; setItem_calls := setItem_calls w;
     dispatched := (dispatched w ++ [(name, value)])%list;
     now := now w; timers := timers w; next_timer := next_timer w |}.

(** [localStorage.setItem(k, v)] in the window: the call is recorded
    whether or not it throws. *)
Definition call_setItem (w : World) (k v : string) : World * option error :=
  let w' := log_setItem w k v in
  match setItem (ls w) k v with
  | Some st => (set_ls w' st, None)
  | None => (w', Some QuotaExceededError)
  end.

(** [setTimeout(callback, delay)]: a fresh positive handle. *)
Definition setTimeout (w : World) (delay : nat) : World * positive :=
  ({| ls := ls w; setItem_calls := setItem_calls w; dispatched := dispatched w;
      now := now w;
      timers := (timers w ++ [(next_timer w, now w + delay)])%list;
      next_timer := Pos.succ (next_timer w) |}, next_timer w).

Definition clearTimeout (w : World) (id : positive) : World :=
  {| ls := ls w; setItem_calls := setItem_calls w; dispatched := dispatched w;
     now := now w;
     timers := filter (fun t => negb (Pos.eqb (fst t) id)) (timers w);
     next_timer := next_timer w |}.

Definition set_clock (w : World) (t : nat) (l : list (positive * nat)) : World :=
  {| ls := ls w; setItem_calls := setItem_calls w; dispatched := dispatched w;
     now := t; timers := l; next_timer := next_timer w |}.

(** ** Events *)

Record Detail : Type := {
  name : jsval;
  value : jsval;
  settings : jsval;
  result : option promise
}.

Record CustomEvent : Type := {
  cancelable : bool;
  defaultPrevented : bool;
  propagationStopped : bool;
  detail : Detail
}.

Definition preventDefault (e : CustomEvent) : CustomEvent :=
  {| cancelable := cancelable e;
     defaultPrevented := if cancelable e then true else defaultPrevented e;
     propagationStopped := propagationStopped e;
     detail := detail e |}.

Definition stopPropagation (e : CustomEvent) : CustomEvent :=
  {| cancelable := cancelable e; defaultPrevented := defaultPrevented e;
     propagationStopped := true; detail := detail e |}.

(** [e.detail.result = p] *)
Definition set_result (e : CustomEvent) (p : promise) : CustomEvent :=
  {| cancelable := cancelable e; defaultPrevented := defaultPrevented e;
     propagationStopped := propagationStopped e;
     detail := {| name := name (detail e); value := value (detail e);
                  settings := settings (detail e);
                  result := Some p |} |}.

(** ** The storage loops shared by the two elements *)

(** [scope && scope.indexOf(settingKey) === -1]; [Throw] when a truthy
    [scope] has no [indexOf] method. *)
Definition strict_equals_string (x : jsval) (k : string) : bool :=
  match x with
  | VStr s => s =? k
  | _ => false
  end.

Definition out_of_scope (scope : jsval) (settingKey : string) : completion bool :=
  if negb (truthy scope) then Ok false
  else match scope with
       | VArr l => Ok (negb (existsb (fun x => strict_equals_string x settingKey) l))
       | VStr s => Ok (indexOf s settingKey =? -1)%Z
       | _ => Throw TypeError
       end.

(** The object that [load] fills.  It starts as [{}], whose prototype is
    [Object.prototype]; [Object.prototype] has one accessor property,
    [__proto__], whose setter replaces the prototype of the receiver.  A
    value that comes out of [JSON.parse] is a plain object or an array, with
    own data properties only. *)
Inductive prototype : Type :=
| ObjectPrototype
| NullPrototype
| ValuePrototype (v : jsval).

Record js_object : Type := {
  own : list (string * jsval);
  proto : prototype
}.

(** [{}] *)
Definition empty_object : js_object :=
  {| own := []; proto := ObjectPrototype |}.

Definition has_own (l : list (string * jsval)) (k : string) : bool :=
  existsb (fun kv => fst kv =? k) l.

(** Whether the lookup of [__proto__] along the chain that starts at the
    prototype [p] ends at the accessor of [Object.prototype]: a parsed
    object with an own property of that name shadows it, an object without
    prototype does not inherit it. *)
Definition reaches_proto_accessor (p : prototype) : bool :=
  match p with
  | ObjectPrototype => true
  | NullPrototype => false
  | ValuePrototype (VObj l) => negb (has_own l "__proto__")
  | ValuePrototype _ => true
  end.

(** [o[k] = v] on an extensible ordinary object.  An own property is
    overwritten in place.  Otherwise the name is looked up along the
    prototype chain: an inherited data property (all of them are writable
    here) or no property at all makes the write create an own property, at
    the end of the enumeration; the inherited accessor [__proto__] makes it
    call the setter instead, which installs an object or [null] as the new
    prototype, ignores every other value, and in no case creates an own
    property. *)
Definition assign (o : js_object) (k : string) (v : jsval) : js_object :=
  if (k =? "__proto__") && negb (has_own (own o) k)
     && reaches_proto_accessor (proto o)
  then match v with
       | VObj _ | VArr _ => {| own := own o; proto := ValuePrototype v |}
       | VNull => {| own := own o; proto := NullPrototype |}
       | _ => o
       end
  else {| own := obj_set (own o) k v; proto := proto o |}.

(** The body of [load]: [n] iterations from index [i], over keys that begin
    with [prefix]. *)
Fixpoint load_loop (prefix : string) (scope : jsval) (st : Storage)
  (n i : nat) (result : js_object) : completion js_object :=
  match n with
  | O => Ok result
  | S n' =>
      match key st i with
      | None => Throw TypeError
      | Some key =>
          if (indexOf key prefix =? 0)%Z then
            let settingKey := substr key (String.length prefix) in
            match out_of_scope scope settingKey with
            | Throw e => Throw e
            | Ok true => load_loop prefix scope st n' (S i) result
            | Ok false =>
                let value := unwrap (item_value st key) in
                load_loop prefix scope st n' (S i)
                  (assign result settingKey value)
            end
          else load_loop prefix scope st n' (S i) result
      end
  end.

(** The body of [clear]: indices [n - 1] down to [0]. *)
Fixpoint clear_loop (prefix : string) (st : Storage) (n : nat)
  : completion Storage :=
  match n with
  | O => Ok st
  | S i =>
      match key st i with
      | None => Throw TypeError
      | Some key =>
          if (indexOf key prefix =? 0)%Z
          then clear_loop prefix (removeItem st key) i
          else clear_loop prefix st i
      end
  end.

(** ** The preferences store
    arc-local-store-preferences.js (legacy) and
    src/ArcLocalStorePreferences.js (current). *)

Module Preferences.

Record element : Type := { dataPrefix : jsval }.

(** Both constructors set [dataPrefix] to ['_arc_']. *)
Definition create : element := {| dataPrefix := VStr "_arc_" |}.

(** [load] of the legacy element: the prefix is
    [(this.dataPrefix || '') + '.'].  [load_object_legacy] is the object the
    promise resolves to, [load_legacy] the same outcome with that object
    given by its own properties. *)
Definition load_object_legacy (el : element) (scope : jsval) (w : World)
  : completion js_object :=
  let prefix := ToString (js_or (dataPrefix el) (VStr "")) ++ "." in
  load_loop prefix scope (ls w) (Storage_length (ls w)) 0 empty_object.

Definition load_legacy (el : element) (scope : jsval) (w : World)
  : completion jsval :=
  match load_object_legacy el scope w with
  | Ok result => Ok (VObj (own result))
  | Throw e => Throw e
  end.

(** [load] of the current element: [dataPrefix] defaults to [''] only
    when it is [undefined]. *)
Definition load_object (el : element) (scope : jsval) (w : World)
  : completion js_object :=
  let dataPrefix :=
    match dataPrefix el with VUndefined => VStr "" | p => p end in
  let prefix := ToString dataPrefix ++ "." in
  load_loop prefix scope (ls w) (Storage_length (ls w)) 0 empty_object.

Definition load (el : element) (scope : jsval) (w : World) : completion jsval :=
  match load_object el scope w with
  | Ok result => Ok (VObj (own result))
  | Throw e => Throw e
  end.

(** [_informChanged]: dispatches a non-cancelable [settings-changed]
    event. *)
Definition _informChanged (name value : jsval) (w : World) : World :=
  log_event w name value.

(** [store]: the legacy element catches the exception of [setItem] and
    returns [Promise.reject(e)]; the current one is an [async] function,
    whose exception rejects the returned promise. *)
Definition store (el : element) (key value : jsval) (w : World)
  : promise * World :=
  let prefix := js_or (dataPrefix el) (VStr "") in
  let sKey := ToString prefix ++ "." ++ ToString key in
  match call_setItem w sKey (ToString (wrap value)) with
  | (w', Some e) => (Rejected e, w')
  | (w', None) => (Resolved VUndefined, _informChanged key value w')
  end.

Definition clear (el : element) (w : World) : completion World :=
  let prefix := ToString (js_or (dataPrefix el) (VStr "")) in
  match clear_loop prefix (ls w) (Storage_length (ls w)) with
  | Ok st => Ok (set_ls w st)
  | Throw e => Throw e
  end.

(** Handler of the [settings-changed] custom event. *)
Definition _changeHandler (el : element) (e : CustomEvent) (w : World)
  : CustomEvent * World :=
  if negb (cancelable e) || defaultPrevented e then (e, w)
  else
    let e := stopPropagation (preventDefault e) in
    let name := name (detail e) in
    if negb (truthy name)
    then (set_result e (Rejected (Error "Name is not set.")), w)
    else let (p, w') := store el name (value (detail e)) w in
         (set_result e p, w').

End Preferences.

(** ** The workspace store
    arc-local-store-workspace.js (legacy) and the current element that
    imports [wrap] and [unwrap] from ArcLocalStorePreferences.js.

    The state of an element is what its methods read through [this].  The
    legacy class declares the property [prefix] and no [dataPrefix]; the
    current one declares [dataPrefix] and sets it in its constructor.  The
    methods of both read [this.dataPrefix] and never [this.prefix]; on a
    receiver without a [dataPrefix] the former is [undefined].  ([prefix]
    is also an accessor without setter that every DOM element inherits, so
    a value cannot be assigned to it on an element that has no property of
    that name of its own.) *)

Module Workspace.

Record element : Type := {
  prefix : jsval;
  dataPrefix : jsval;
  __pendingWorkspace : jsval;
  __workspaceWriteDebounce : option positive
}.

(** The constructor of the current element. *)
Definition create : element :=
  {| prefix := VUndefined; dataPrefix := VStr "_arcworkspace";
     __pendingWorkspace := VUndefined; __workspaceWriteDebounce := None |}.

(** [el.dataPrefix = p] *)
Definition set_dataPrefix (el : element) (p : jsval) : element :=
  {| prefix := prefix el; dataPrefix := p;
     __pendingWorkspace := __pendingWorkspace el;
     __workspaceWriteDebounce := __workspaceWriteDebounce el |}.

Definition set_pending (el : element) (v : jsval) : element :=
  {| prefix := prefix el; dataPrefix := dataPrefix el;
     __pendingWorkspace := v;
     __workspaceWriteDebounce := __workspaceWriteDebounce el |}.

Definition set_debounce (el : element) (h : option positive) : element :=
  {| prefix := prefix el; dataPrefix := dataPrefix el;
     __pendingWorkspace := __pendingWorkspace el;
     __workspaceWriteDebounce := h |}.

(** [load] takes no scope: the loop runs with [scope] undefined. *)
Definition load_object_legacy (el : element) (w : World)
  : completion js_object :=
  let prefix := ToString (js_or (dataPrefix el) (VStr "")) ++ "." in
  load_loop prefix VUndefined (ls w) (Storage_length (ls w)) 0 empty_object.

Definition load_legacy (el : element) (w : World) : completion jsval :=
  match load_object_legacy el w with
  | Ok result => Ok (VObj (own result))
  | Throw e => Throw e
  end.

Definition load_object (el : element) (w : World) : completion js_object :=
  let dataPrefix :=
    match dataPrefix el with VUndefined => VStr "" | p => p end in
  let prefix := ToString dataPrefix ++ "." in
  load_loop prefix VUndefined (ls w) (Storage_length (ls w)) 0 empty_object.

Definition load (el : element) (w : World) : completion jsval :=
  match load_object el w with
  | Ok result => Ok (VObj (own result))
  | Throw e => Throw e
  end.

(** [_store]: one [setItem] per own property of the workspace; an
    exception is caught and the loop goes on. *)
Definition _store (el : element) (workspace : jsval) (w : World) : World :=
  if negb (truthy workspace) then w
  else
    fold_left
      (fun w key =>
         let prefix := js_or (dataPrefix el) (VStr "") in
         let sKey := ToString prefix ++ "." ++ key in
         let value := get_prop workspace key in
         fst (call_setItem w sKey (ToString (wrap value))))
      (Object_keys workspace) w.

(** [store]: records the value, cancels the running timer if there is
    one and starts a new one of 500 ms.  It returns nothing. *)
Definition store (value : jsval) (s : element * World) : element * World :=
  let (el, w) := s in
  let el := set_pending el value in
  let w := match __workspaceWriteDebounce el with
           | Some h => clearTimeout w h
           | None => w
           end in
  let (w, h) := setTimeout w 500 in
  (set_debounce el (Some h), w).

(** The callback that [store] hands to [setTimeout]. *)
Definition flush (s : element * World) : element * World :=
  let (el, w) := s in
  let el := set_debounce el None in
  let w := _store el (__pendingWorkspace el) w in
  (set_pending el VUndefined, w).

(** The clock moves [d] ms forward: the timers that fall due run, in the
    order they were set. *)
Definition advance (d : nat) (s : element * World) : element * World :=
  let (el, w) := s in
  let t := now w + d in
  let due := filter (fun tm => (snd tm <=? t)%nat) (timers w) in
  let rest := filter (fun tm => negb (snd tm <=? t)%nat) (timers w) in
  fold_left (fun s _ => flush s) due (el, set_clock w t rest).

Definition clear (el : element) (w : World) : completion World :=
  let prefix := ToString (dataPrefix el) in
  match clear_loop prefix (ls w) (Storage_length (ls w)) with
  | Ok st => Ok (set_ls w st)
  | Throw e => Throw e
  end.

(** Handler of the [workspace-state-store] custom event. *)
Definition _changeHandler (e : CustomEvent) (s : element * World)
  : CustomEvent * (element * World) :=
  if negb (cancelable e) || defaultPrevented e then (e, s)
  else
    let e := stopPropagation (preventDefault e) in
    let value := value (detail e) in
    if negb (truthy value)
    then (set_result e (Rejected (Error "Value is not set.")), s)
    else (e, store value s).

End Workspace.

(** ** Vocabulary of the statements *)

(** Own property lookup that tells an absent property from one that holds
    [undefined]. *)
Fixpoint obj_find (l : list (string * jsval)) (k : string) : option jsval :=
  match l with
  | [] => None
  | (k', v) :: r => if k' =? k then Some v else obj_find r k
  end.

(** The [scope] argument of [load]: absent, or a list of key names. *)
Definition scope_value (scope : option (list string)) : jsval :=
  match scope with
  | None => VUndefined
  | Some l => VArr (map VStr l)
  end.

Definition in_scope (scope : option (list string)) (k : string) : bool :=
  match scope with
  | None => true
  | Some l => existsb (fun s => s =? k) l
  end.

(** What one iteration of [load] does to the result. *)
Definition load_step (prefix : string) (scope : option (list string))
  (acc : js_object) (kv : string * string) : js_object :=
  if String.prefix prefix (fst kv) then
    let settingKey := substr (fst kv) (String.length prefix) in
    if in_scope scope settingKey
    then assign acc settingKey (unwrap (VStr (snd kv)))
    else acc
  else acc.

(** The same iteration on the own properties alone, for an entry whose
    logical key is not [__proto__]. *)
Definition own_step (prefix : string) (scope : option (list string))
  (acc : list (string * jsval)) (kv : string * string)
  : list (string * jsval) :=
  if String.prefix prefix (fst kv) then
    let settingKey := substr (fst kv) (String.length prefix) in
    if in_scope scope settingKey
    then obj_set acc settingKey (unwrap (VStr (snd kv)))
    else acc
  else acc.

(** The prototype that the setter of [__proto__] leaves on the result when
    it is called with [v], on an object whose prototype was
    [Object.prototype]. *)
Definition installed (v : jsval) : prototype :=
  match v with
  | VObj _ | VArr _ => ValuePrototype v
  | VNull => NullPrototype
  | _ => ObjectPrototype
  end.

(** The entries other than the one stored under [k]. *)
Definition other_than (k : string) (kv : string * string) : bool :=
  negb (fst kv =? k).

(** The stored text decoded by the codec. *)
Definition decoded (stored : option string) : option jsval :=
  option_map (fun s => unwrap (VStr s)) stored.

(** Characters that may follow a value inside a JSON text. *)
Definition follow (r : string) : bool :=
  match r with
  | EmptyString => true
  | String c _ => ((c =? ",") || (c =? "]") || (c =? "}"))%char
  end.

(** Characters a JSON value may begin with. *)
Definition value_start (c : ascii) : bool :=
  (is_digit c || (c =? "-") || (c =? "n") || (c =? "t") || (c =? "f")
   || (c =? dquote) || (c =? "[") || (c =? "{"))%char.

(** The text [JSON.stringify] gives a value inside an array. *)
Definition elem_text (x : jsval) : string :=
  match JSON_stringify x with
  | Some t => t
  | None => "null"
  end.

(** The text of one property of an object. *)
Definition member_text (kv : string * jsval) : string :=
  quote (fst kv) ++ ":" ++ elem_text (snd kv).

(** The parser reads the text of [v] back, whatever follows it. *)
Definition reads_back (v : jsval) : Prop :=
  serializable v = true ->
  forall f r, sz v <= f -> follow r = true ->
  parse_value f (elem_text v ++ r) = Some (v, r).

(** The entries that [clear] leaves in place. *)
Definition keeps (prefix : string) (kv : string * string) : bool :=
  negb (String.prefix prefix (fst kv)).

(** The JSON text of the wrapper object around the text [t] of a value. *)
Definition wrapper_text (t : string) : string :=
  "{" ++ quote "value" ++ ":" ++ t ++ "}".

(** The [setItem] calls that [_store] makes for a workspace. *)
Definition field_writes (el : Workspace.element) (workspace : jsval)
  : list (string * string) :=
  if truthy workspace then
    map (fun field =>
           (ToString (js_or (Workspace.dataPrefix el) (VStr "")) ++ "." ++ field,
            ToString (wrap (get_prop workspace field))))
        (Object_keys workspace)
  else [].

(** The [setItem] calls of a list applied in order; a call that throws
    leaves the storage as it was. *)
Definition write_all (calls : list (string * string)) (st : Storage) : Storage :=
  fold_left (fun st kv => match setItem st (fst kv) (snd kv) with
                          | Some st' => st'
                          | None => st
                          end) calls st.

(** The only timer that may be pending is the one the element holds. *)
Definition owns_timers (s : Workspace.element * World) : Prop :=
  forall tm, In tm (timers (snd s)) ->
             Workspace.__workspaceWriteDebounce (fst s) = Some (fst tm).

(** ** Sample inputs *)

Definition window (l : list (string * string)) (q : nat) : World :=
  {| ls := {| items := l; quota := q |}; setItem_calls := []; dispatched := [];
     now := 0; timers := []; next_timer := 1%positive |}.

Definition sample_value : jsval :=
  VObj [("test", VBool true);
        ("list", VArr [VNum 12; VNum (-3); VNull; VStr "a b"; VArr []]);
        ("nested", VObj [("deep", VStr "x")])].

Definition stored (v : jsval) : string := ToString (wrap v).

Definition sample_items : list (string * string) :=
  [("_arc_.a", stored (VStr "a")); ("_arc_.b", stored (VBool true));
   ("_arc_.c", stored (VNum 12)); ("_arc_.d", wrapper_text "null");
   ("_other_.b", stored (VNum 1))].

Definition write_request (name value : jsval) (cancelable prevented : bool)
  : CustomEvent :=
  {| cancelable := cancelable; defaultPrevented := prevented;
     propagationStopped := false;
     detail := {| name := name; value := value; settings := VUndefined;
                  result := None |} |}.

Definition workspace_one : jsval := VObj [("a", VNum 1); ("b", VStr "x")].
Definition workspace_two : jsval := VObj [("c", VArr [VNum 1])].

Definition workspace_items : list (string * string) :=
  [("_arcworkspace.a", stored (VNum 1)); ("undefined.b", stored (VNum 2));
   (".c", stored (VNum 3))].

(** An element whose [dataPrefix] reads [undefined], and another one on
    which [prefix] reads [null], the namespace prefix of an HTML element. *)
Definition unset_workspace : Workspace.element :=
  Workspace.set_dataPrefix Workspace.create VUndefined.

Definition other_workspace : Workspace.element :=
  {| Workspace.prefix := VNull;
     Workspace.dataPrefix := VUndefined;
     Workspace.__pendingWorkspace := VUndefined;
     Workspace.__workspaceWriteDebounce := None |}.

(** Entries of which one has the logical key [__proto__]. *)
Definition proto_items : list (string * string) :=
  [("_arc_.a", stored (VStr "a"));
   ("_arc_.__proto__", stored (VObj [("b", VBool true)]));
   ("_arc_.c", stored (VNum 12))].

(** An element in the middle of a debounce window. *)
Definition pending_state : Workspace.element * World :=
  Workspace.store workspace_one (Workspace.create, window [] 1000).

(** Case analysis on the 256 code units. *)
Ltac by_cases_on_char c :=
  destruct c as [[] [] [] [] [] [] [] []]; try discriminate; try reflexivity.

(** A text written with its double quotes left out: [lit [a; b; c]] is
    [a], a double quote, [b], a double quote, [c]. *)
Definition lit (parts : list string) : string :=
  String.concat (str1 dquote) parts.

(* ================================================================= *)
(** * The rest of the elements *)

(** ** The read handlers and the storage-event handler *)

(** The [storage] event of the window, by the three properties the handler
    reads. *)
Record StorageEvent : Type := {
  storageArea : jsval;
  storage_key : jsval;
  newValue : jsval
}.

Module PreferencesBridge.

(** [_readHandler] of the legacy element: [load] returns
    [Promise.resolve(result)]; an exception of [load] leaves the handler
    after the event was marked. *)
Definition _readHandler_legacy (el : Preferences.element) (e : CustomEvent)
  (w : World) : CustomEvent * option error :=
  if defaultPrevented e then (e, None)
  else
    let e := stopPropagation (preventDefault e) in
    match Preferences.load_legacy el (settings (detail e)) w with
    | Ok v => (set_result e (Resolved v), None)
    | Throw err => (e, Some err)
    end.

(** [_readHandler] of the current element: [load] is [async], so an
    exception rejects the promise put on the event. *)
Definition _readHandler (el : Preferences.element) (e : CustomEvent)
  (w : World) : CustomEvent :=
  if defaultPrevented e then e
  else
    let e := stopPropagation (preventDefault e) in
    match Preferences.load el (settings (detail e)) w with
    | Ok v => set_result e (Resolved v)
    | Throw err => set_result e (Rejected err)
    end.

(** [_winSettingsHandler]: [e.storageArea !== 'local'] is a strict
    comparison with a string. *)
Definition _winSettingsHandler (e : StorageEvent) (w : World) : World :=
  if negb (strict_equals_string (storageArea e) "local") then w
  else
    let key := storage_key e in
    let value := newValue e in
    Preferences._informChanged key value w.

End PreferencesBridge.

Module WorkspaceBridge.

(** [_readHandler] of the legacy workspace element. *)
Definition _readHandler_legacy (e : CustomEvent)
  (s : Workspace.element * World) : CustomEvent * option error :=
  if defaultPrevented e then (e, None)
  else
    let e := stopPropagation (preventDefault e) in
    match Workspace.load_legacy (fst s) (snd s) with
    | Ok v => (set_result e (Resolved v), None)
    | Throw err => (e, Some err)
    end.

(** [_readHandler] of the current workspace element. *)
Definition _readHandler (e : CustomEvent) (s : Workspace.element * World)
  : CustomEvent :=
  if defaultPrevented e then e
  else
    let e := stopPropagation (preventDefault e) in
    match Workspace.load (fst s) (snd s) with
    | Ok v => set_result e (Resolved v)
    | Throw err => set_result e (Rejected err)
    end.

End WorkspaceBridge.

(** ** Vocabulary of the further statements *)

(** A truthy [scope] that has no [indexOf] method. *)
Definition has_no_indexOf (scope : jsval) : bool :=
  truthy scope && match scope with
                  | VArr _ | VStr _ => false
                  | _ => true
                  end.

(** Every [setItem] call of the list succeeds at its turn. *)
Fixpoint all_succeed (calls : list (string * string)) (st : Storage) : bool :=
  match calls with
  | [] => true
  | kv :: r =>
      match setItem st (fst kv) (snd kv) with
      | Some st' => all_succeed r st'
      | None => false
      end
  end.

(** What happens to a workspace element over time. *)
Inductive action : Type :=
| Store (value : jsval)
| Advance (d : nat)
| Request (e : CustomEvent).

Definition step (s : Workspace.element * World) (a : action)
  : Workspace.element * World :=
  match a with
  | Store v => Workspace.store v s
  | Advance d => Workspace.advance d s
  | Request e => snd (Workspace._changeHandler e s)
  end.

Definition run (l : list action) (s : Workspace.element * World)
  : Workspace.element * World :=
  fold_left step l s.

(** At most one timer is pending, it is the one the element holds, it is
    not yet due, and a pending workspace is never left without a timer. *)
Definition single_timer (s : Workspace.element * World) : Prop :=
  match Workspace.__workspaceWriteDebounce (fst s) with
  | Some h => exists due, timers (snd s) = [(h, due)] /\ now (snd s) < due
  | None => timers (snd s) = []
            /\ Workspace.__pendingWorkspace (fst s) = VUndefined
  end.

(** A burst of [store] calls, each followed by a pause. *)
Definition burst (calls : list (jsval * nat)) (s : Workspace.element * World)
  : Workspace.element * World :=
  fold_left (fun s c => Workspace.advance (snd c) (Workspace.store (fst c) s))
    calls s.

(** ** Further sample inputs *)

Definition read_request (scope : jsval) (cancelable prevented : bool)
  : CustomEvent :=
  {| cancelable := cancelable; defaultPrevented := prevented;
     propagationStopped := false;
     detail := {| name := VUndefined; value := VUndefined; settings := scope;
                  result := None |} |}.
(* ================================================================= *)
(** * Proofs *)

(** ** Strings *)

Lemma append_assoc (a b c : string) : (a ++ b) ++ c = a ++ (b ++ c).
Proof. induction a as [|x a IH]; simpl; [reflexivity | now rewrite IH]. Qed.

Lemma append_nil_r (a : string) : a ++ "" = a.
Proof. induction a as [|x a IH]; simpl; [reflexivity | now rewrite IH]. Qed.

Lemma length_append (a b : string) :
  String.length (a ++ b) = String.length a + String.length b.
Proof. induction a as [|x a IH]; simpl; [reflexivity | now rewrite IH]. Qed.

Lemma prefix_append (p s : string) : prefix p (p ++ s) = true.
Proof.
  induction p as [|x p IH]; simpl.
  - now destruct s.
  - destruct (ascii_dec x x) as [_|n]; [exact IH | now elim n].
Qed.

Lemma substr_append (p s : string) : substr (p ++ s) (String.length p) = s.
Proof. induction p as [|x p IH]; simpl; [reflexivity | exact IH]. Qed.

Lemma prefix_split (p s : string) :
  prefix p s = true -> s = p ++ substr s (String.length p).
Proof.
  revert s; induction p as [|x p IH]; intros s H; simpl.
  - reflexivity.
  - destruct s as [|y s]; simpl in H; [discriminate|].
    destruct (ascii_dec x y) as [->|]; [|discriminate].
    simpl. f_equal. now apply IH.
Qed.

Lemma indexOf_nil (p : string) :
  indexOf "" p = if prefix p "" then 0%Z else (-1)%Z.
Proof. reflexivity. Qed.

Lemma indexOf_cons (x : ascii) (s p : string) :
  indexOf (String x s) p =
  if prefix p (String x s) then 0%Z
  else if (indexOf s p =? -1)%Z then (-1)%Z else (indexOf s p + 1)%Z.
Proof. reflexivity. Qed.

Lemma indexOf_range (s p : string) :
  (indexOf s p = -1 \/ 0 <= indexOf s p)%Z.
Proof.
  induction s as [|x s' IH].
  - rewrite indexOf_nil. destruct (prefix p ""); lia.
  - rewrite indexOf_cons. destruct (prefix p (String x s')); [lia|].
    destruct (Z.eqb_spec (indexOf s' p) (-1)); lia.
Qed.

Lemma indexOf_zero (s p : string) : indexOf s p = 0%Z <-> prefix p s = true.
Proof.
  destruct s as [|x s'].
  - rewrite indexOf_nil.
    destruct (prefix p ""); split; intros H; try reflexivity; discriminate.
  - rewrite indexOf_cons. destruct (prefix p (String x s')); [tauto|].
    generalize (indexOf_range s' p).
    destruct (Z.eqb_spec (indexOf s' p) (-1));
      intros; split; intros H0; try discriminate; exfalso; lia.
Qed.

(** ** Character classes *)


Lemma follow_span (r : string) :
  follow r = true -> span_digits r = (EmptyString, r).
Proof.
  destruct r as [|c r]; [reflexivity|]. unfold follow.
  intros H. cbn [span_digits].
  replace (is_digit c) with false; [reflexivity|].
  revert H. by_cases_on_char c.
Qed.

Lemma follow_no_fraction (r : string) :
  follow r = true -> starts_fraction r = false.
Proof.
  destruct r as [|c r]; [reflexivity|]. unfold follow, starts_fraction.
  by_cases_on_char c.
Qed.

Lemma follow_skip_ws (r : string) : follow r = true -> skip_ws r = r.
Proof.
  destruct r as [|c r]; [reflexivity|]. unfold follow. intros H.
  cbn [skip_ws]. replace (is_ws c) with false; [reflexivity|].
  revert H. by_cases_on_char c.
Qed.

Lemma follow_cons (c : ascii) (r : string) :
  ((c =? ",") || (c =? "]") || (c =? "}"))%char = true ->
  follow (String c r) = true.
Proof. exact (fun H => H). Qed.

(** ** Numbers *)

Lemma span_digits_uint (d : uint) (r : string) :
  span_digits r = (EmptyString, r) ->
  span_digits (NilEmpty.string_of_uint d ++ r) = (NilEmpty.string_of_uint d, r).
Proof.
  intros Hr. induction d; cbn [NilEmpty.string_of_uint append]; trivial;
    cbn [span_digits]; rewrite IHd; reflexivity.
Qed.

Lemma nzhead_no_D0 (d d' : uint) : nzhead d <> D0 d'.
Proof. induction d; cbn; try discriminate; assumption. Qed.

Lemma to_uint_normal (p : positive) : unorm (Pos.to_uint p) = Pos.to_uint p.
Proof.
  rewrite <- (DecimalPos.Unsigned.to_of (Pos.to_uint p)).
  now rewrite DecimalPos.Unsigned.of_to.
Qed.

Lemma to_uint_head (p : positive) (d : uint) : Pos.to_uint p <> D0 d.
Proof.
  intros E. generalize (to_uint_normal p). rewrite E. unfold unorm.
  destruct (nzhead (D0 d)) eqn:Hn; try discriminate;
    try (intros _; exact (nzhead_no_D0 _ _ Hn)).
  intros [= <-]. apply (DecimalPos.Unsigned.to_uint_nonzero p). exact E.
Qed.

Lemma parse_unsigned_uint (d : uint) (r : string) :
  follow r = true -> d <> Nil -> (forall d', d = D0 d' -> d' = Nil) ->
  parse_unsigned (NilEmpty.string_of_uint d ++ r) = Some (N.of_uint d, r).
Proof.
  intros Hr Hnil H0. unfold parse_unsigned.
  rewrite (span_digits_uint _ _ (follow_span _ Hr)).
  pose proof (NilEmpty.usu d) as U.
  destruct d; try (now elim Hnil);
    try (cbn [NilEmpty.string_of_uint] in *;
         cbn [Ascii.eqb Bool.eqb andb orb];
         rewrite (follow_no_fraction _ Hr), U; reflexivity).
  rewrite (H0 d eq_refl). cbn.
  now rewrite (follow_no_fraction _ Hr).
Qed.

Lemma parse_unsigned_pos (p : positive) (r : string) :
  follow r = true ->
  parse_unsigned (NilEmpty.string_of_uint (Pos.to_uint p) ++ r)
  = Some (Npos p, r).
Proof.
  intros Hr. rewrite parse_unsigned_uint; trivial.
  - unfold N.of_uint. now rewrite DecimalPos.Unsigned.of_to.
  - apply DecimalPos.Unsigned.to_uint_nonnil.
  - intros d' E. now elim (to_uint_head p d').
Qed.

Lemma parse_number_text (n : Z) (r : string) :
  follow r = true ->
  parse_number (Number_toString n ++ r) = Some (VNum n, r).
Proof.
  intros Hr. destruct n as [|p|p]; unfold Number_toString.
  - cbn [append]. unfold parse_number, parse_unsigned. cbn [span_digits].
    change (is_digit "0") with true. cbv iota.
    rewrite (follow_span _ Hr), (follow_no_fraction _ Hr). reflexivity.
  - assert (H := parse_unsigned_pos p r Hr).
    unfold parse_number.
    destruct (NilEmpty.string_of_uint (Pos.to_uint p) ++ r) as [|c t] eqn:E.
    + now rewrite H.
    + assert (c <> "-"%char) as Hc.
      { intros ->. revert E.
        generalize (DecimalPos.Unsigned.to_uint_nonnil p).
        destruct (Pos.to_uint p); cbn; intros Hn E';
          [now elim Hn | discriminate ..]. }
      rewrite H.
      destruct c as [[] [] [] [] [] [] [] []]; try reflexivity. now elim Hc.
  - cbn [append]. unfold parse_number. rewrite (parse_unsigned_pos p r Hr).
    reflexivity.
Qed.

(** ** String literals *)

Lemma parse_chars_escape_char (c : ascii) (e s r : string) :
  parse_chars e = Some (s, r) ->
  parse_chars (escape_char c ++ e) = Some (String c s, r).
Proof.
  intros IH.
  destruct c as [[] [] [] [] [] [] [] []]; cbn; rewrite IH; reflexivity.
Qed.

Lemma parse_chars_escape (s r : string) :
  parse_chars (escape s ++ String dquote r) = Some (s, r).
Proof.
  induction s as [|c s IH]; [reflexivity|].
  cbn [escape]. rewrite append_assoc. now apply parse_chars_escape_char.
Qed.

(** ** Values *)

Lemma stringify_arr (l : list jsval) :
  JSON_stringify (VArr l)
  = Some ("[" ++ String.concat "," (map elem_text l) ++ "]").
Proof. reflexivity. Qed.

Lemma stringify_serializable (v : jsval) :
  serializable v = true -> JSON_stringify v = Some (elem_text v).
Proof. destruct v; try reflexivity. discriminate. Qed.

Lemma member_texts_serializable (l : list (string * jsval)) :
  forallb (fun kv => serializable (snd kv)) l = true ->
  flat_map (fun kv => match JSON_stringify (snd kv) with
                      | Some t => [quote (fst kv) ++ ":" ++ t]
                      | None => []
                      end) l
  = map member_text l.
Proof.
  induction l as [|kv l IH]; [reflexivity|]. intros H.
  cbn [forallb] in H. apply andb_prop in H as [Hv Hl].
  cbn [flat_map map]. rewrite (IH Hl). unfold member_text at 2.
  now rewrite (stringify_serializable _ Hv).
Qed.

Lemma stringify_obj (l : list (string * jsval)) :
  forallb (fun kv => serializable (snd kv)) l = true ->
  JSON_stringify (VObj l)
  = Some ("{" ++ String.concat "," (map member_text l) ++ "}").
Proof.
  intros H. cbn [JSON_stringify]. now rewrite member_texts_serializable.
Qed.

Lemma number_head (n : Z) :
  exists c t, Number_toString n = String c t
              /\ (is_digit c || (c =? "-")%char) = true.
Proof.
  destruct n as [|p|p]; unfold Number_toString.
  - now exists "0"%char, EmptyString.
  - generalize (DecimalPos.Unsigned.to_uint_nonnil p).
    destruct (Pos.to_uint p); intros Hn; [now elim Hn| ..];
      cbn [NilEmpty.string_of_uint]; eexists _, _; split; reflexivity.
  - now eexists _, _.
Qed.

Lemma text_head (v : jsval) :
  exists c t, elem_text v = String c t /\ value_start c = true.
Proof.
  destruct v; unfold elem_text; cbn [JSON_stringify];
    try (eexists _, _; split; reflexivity).
  - destruct b; eexists _, _; split; reflexivity.
  - destruct (number_head n) as (c & t & -> & H). exists c, t. split; trivial.
    unfold value_start. now rewrite H.
Qed.

Lemma value_start_skip_ws (c : ascii) (t : string) :
  value_start c = true -> skip_ws (String c t) = String c t.
Proof.
  intros H. cbn [skip_ws]. replace (is_ws c) with false; [reflexivity|].
  revert H. by_cases_on_char c.
Qed.

Lemma parse_value_number (f : nat) (c : ascii) (t : string) :
  (is_digit c || (c =? "-")%char) = true ->
  parse_value (S f) (String c t) = parse_number (String c t).
Proof.
  intros H. cbn [parse_value skip_ws]. revert H. by_cases_on_char c.
Qed.

Lemma parse_value_open_arr (f : nat) (c : ascii) (t : string) :
  value_start c = true ->
  parse_value (S f) (String "[" (String c t))
  = option_map (fun p => (VArr (fst p), snd p)) (parse_elements f (String c t)).
Proof.
  intros H. cbn [parse_value skip_ws]. revert H. by_cases_on_char c.
Qed.

Lemma parse_value_open_obj (f : nat) (t : string) :
  parse_value (S f) (String "{" (String dquote t))
  = option_map (fun p => (VObj (build_object (fst p)), snd p))
      (parse_members f (String dquote t)).
Proof. reflexivity. Qed.

Lemma obj_set_fresh (l : list (string * jsval)) (k : string) (v : jsval) :
  existsb (String.eqb k) (map fst l) = false -> obj_set l k v = (l ++ [(k, v)])%list.
Proof.
  induction l as [|[k' v'] l IH]; [reflexivity|].
  cbn [map fst existsb obj_set app]. intros H.
  apply orb_false_elim in H as [Hk Hl]. rewrite String.eqb_sym, Hk.
  now rewrite (IH Hl).
Qed.

Lemma existsb_app_false (k : string) (a b : list string) :
  existsb (String.eqb k) a = false -> existsb (String.eqb k) b = false ->
  existsb (String.eqb k) (a ++ b)%list = false.
Proof. intros Ha Hb. now rewrite existsb_app, Ha, Hb. Qed.

Lemma build_object_from (l acc : list (string * jsval)) :
  distinct (map fst l) = true ->
  (forall k, In k (map fst l) -> existsb (String.eqb k) (map fst acc) = false) ->
  fold_left (fun a kv => obj_set a (fst kv) (snd kv)) l acc = (acc ++ l)%list.
Proof.
  revert acc. induction l as [|[k v] l IH]; intros acc Hd Hacc.
  - cbn. now rewrite List.app_nil_r.
  - cbn [map fst distinct] in Hd. apply andb_prop in Hd as [Hk Hd].
    apply negb_true_iff in Hk.
    cbn [fold_left fst snd]. rewrite obj_set_fresh by (apply Hacc; now left).
    rewrite IH; trivial.
    + now rewrite <- List.app_assoc.
    + intros k' Hin. rewrite map_app. apply existsb_app_false.
      * apply Hacc. now right.
      * cbn. rewrite orb_false_r. destruct (String.eqb_spec k' k) as [->|]; trivial.
        exfalso. rewrite <- not_true_iff_false in Hk. apply Hk.
        apply existsb_exists. exists k. split; trivial. apply String.eqb_refl.
Qed.

Lemma build_object_distinct (l : list (string * jsval)) :
  distinct (map fst l) = true -> build_object l = l.
Proof. intros H. unfold build_object. now rewrite build_object_from. Qed.

Lemma parse_elements_text (l : list jsval) :
  Forall reads_back l -> forallb serializable l = true -> l <> [] ->
  forall f r,
    list_sum (map (fun x => S (sz x)) l) <= f -> follow r = true ->
    parse_elements f (String.concat "," (map elem_text l) ++ String "]" r)
    = Some (l, r).
Proof.
  induction 1 as [|x l Hx Hl IH]; intros Hs Hne f r Hf Hr; [now elim Hne|].
  cbn [forallb] in Hs. apply andb_prop in Hs as [Hsx Hsl].
  cbn [map list_sum fold_right] in Hf.
  destruct f as [|f]; [lia|]. cbn [parse_elements].
  destruct l as [|y l].
  - cbn [map String.concat].
    rewrite (Hx Hsx f (String "]" r)); [reflexivity | cbn in Hf; lia | reflexivity].
  - change (String.concat "," (map elem_text (x :: y :: l)))
      with (elem_text x ++ "," ++ String.concat "," (map elem_text (y :: l))).
    rewrite append_assoc. cbn [append].
    rewrite (Hx Hsx f); [| cbn in Hf |- *; lia | reflexivity].
    cbn [skip_ws is_ws]. cbn -[parse_elements String.concat map].
    rewrite IH; trivial; [discriminate | cbn in Hf |- *; lia].
Qed.

Lemma parse_members_text (l : list (string * jsval)) :
  Forall (fun kv => reads_back (snd kv)) l ->
  forallb (fun kv => serializable (snd kv)) l = true -> l <> [] ->
  forall f r,
    list_sum (map (fun kv => S (sz (snd kv))) l) <= f -> follow r = true ->
    parse_members f (String.concat "," (map member_text l) ++ String "}" r)
    = Some (l, r).
Proof.
  induction 1 as [|[k x] l Hx Hl IH]; intros Hs Hne f r Hf Hr; [now elim Hne|].
  cbn [forallb snd] in Hs. apply andb_prop in Hs as [Hsx Hsl].
  cbn [map list_sum fold_right snd] in Hf. cbn [snd] in Hx.
  destruct f as [|f]; [lia|].
  assert (Hm : forall rest,
             member_text (k, x) ++ rest
             = String dquote (escape k ++ String dquote
                                (String ":" (elem_text x ++ rest)))).
  { intros rest. unfold member_text, quote, str1. cbn [fst snd append].
    f_equal. now rewrite !append_assoc. }
  destruct l as [|y l].
  - cbn [map String.concat]. rewrite Hm.
    cbn [parse_members skip_ws]. change (is_ws dquote) with false. cbv iota.
    rewrite Ascii.eqb_refl, parse_chars_escape.
    cbn [skip_ws]. change (is_ws ":") with false. cbv iota.
    rewrite (Hx Hsx f (String "}" r)); [reflexivity | cbn in Hf; lia | reflexivity].
  - change (String.concat "," (map member_text ((k, x) :: y :: l)))
      with (member_text (k, x) ++ "," ++ String.concat "," (map member_text (y :: l))).
    rewrite append_assoc, Hm. cbn [append].
    cbn [parse_members skip_ws]. change (is_ws dquote) with false. cbv iota.
    rewrite Ascii.eqb_refl, parse_chars_escape.
    cbn [skip_ws]. change (is_ws ":") with false. cbv iota.
    rewrite (Hx Hsx f); [| cbn in Hf |- *; lia | reflexivity].
    cbn [skip_ws is_ws]. cbn -[parse_members String.concat map].
    rewrite IH; trivial; [discriminate | cbn in Hf |- *; lia].
Qed.

Lemma strip_prefix_append (p r : string) : strip_prefix p (p ++ r) = Some r.
Proof. unfold strip_prefix. now rewrite prefix_append, substr_append. Qed.

Lemma parse_value_literal (f : nat) (r : string) :
  parse_value (S f) ("null" ++ r) = Some (VNull, r)
  /\ parse_value (S f) ("true" ++ r) = Some (VBool true, r)
  /\ parse_value (S f) ("false" ++ r) = Some (VBool false, r).
Proof.
  repeat split; cbn -[strip_prefix].
  - change (String "n" (String "u" (String "l" (String "l" r))))
      with ("null" ++ r).
    now rewrite strip_prefix_append.
  - change (String "t" (String "r" (String "u" (String "e" r))))
      with ("true" ++ r).
    now rewrite strip_prefix_append.
  - change (String "f" (String "a" (String "l" (String "s" (String "e" r)))))
      with ("false" ++ r).
    now rewrite strip_prefix_append.
Qed.

Lemma member_text_unfold (k : string) (x : jsval) :
  member_text (k, x)
  = String dquote (escape k ++ String dquote (String ":" (elem_text x))).
Proof.
  unfold member_text, quote, str1. cbn [fst snd append].
  now rewrite append_assoc.
Qed.

Lemma parse_value_text (v : jsval) : reads_back v.
Proof.
  induction v using jsval_nested_ind; intros Hs f r Hf Hr;
    (destruct f as [|f]; [cbn in Hf; lia|]).
  - discriminate.
  - apply parse_value_literal.
  - destruct b; apply parse_value_literal.
  - unfold elem_text; cbn [JSON_stringify].
    destruct (number_head n) as (c & t & E & Hc).
    rewrite <- (parse_number_text n r Hr). rewrite E. cbn [append].
    now apply parse_value_number.
  - unfold elem_text; cbn [JSON_stringify]; unfold quote, str1; cbn [append].
    rewrite append_assoc. cbn [append parse_value skip_ws].
    change (is_ws dquote) with false. cbv iota.
    cbn -[parse_chars]. now rewrite parse_chars_escape.
  - unfold elem_text. rewrite stringify_arr. cbn [append].
    rewrite append_assoc. cbn [append].
    cbn [serializable] in Hs. cbn [sz] in Hf.
    destruct l as [|x l]; [reflexivity|].
    destruct (text_head x) as (c & t & E & Hc).
    assert (Hp := parse_elements_text (x :: l) H Hs ltac:(discriminate) f r
                    ltac:(lia) Hr).
    revert Hp. cbn [map]. 
    replace (String.concat "," (elem_text x :: map elem_text l))
      with (String c (String.concat "," (t :: map elem_text l))).
    2:{ cbn [String.concat]. destruct (map elem_text l); rewrite E; reflexivity. }
    cbn [append]. intros Hp. rewrite parse_value_open_arr; trivial.
    now rewrite Hp.
  - cbn [serializable] in Hs. apply andb_prop in Hs as [Hs Hd]. cbn [sz] in Hf.
    unfold elem_text. rewrite (stringify_obj _ Hs). cbn [append].
    rewrite append_assoc. cbn [append].
    destruct l as [|[k x] l]; [reflexivity|].
    assert (Hp := parse_members_text ((k, x) :: l) H Hs ltac:(discriminate) f r
                    ltac:(lia) Hr).
    revert Hp. cbn [map].
    replace (String.concat "," (member_text (k, x) :: map member_text l))
      with (String dquote
              (String.concat ","
                 ((escape k ++ String dquote (String ":" (elem_text x)))
                    :: map member_text l))).
    2:{ rewrite (member_text_unfold k x). cbn [String.concat].
        destruct (map member_text l); reflexivity. }
    cbn [append]. intros Hp. rewrite parse_value_open_obj, Hp.
    cbn [option_map fst snd]. now rewrite (build_object_distinct _ Hd).
Qed.

Lemma length_concat_cons (sep t : string) (l : list string) :
  String.length t <= String.length (String.concat sep (t :: l))
  /\ (l <> [] ->
      String.length (String.concat sep (t :: l))
      = String.length t + String.length sep
        + String.length (String.concat sep l)).
Proof.
  cbn [String.concat]. destruct l as [|u l].
  - split; [lia | now intros H; elim H].
  - rewrite !length_append. split; [lia | intros _; lia].
Qed.

Lemma sz_elements (l : list jsval) :
  Forall (fun x => serializable x = true ->
                   sz x <= String.length (elem_text x)) l ->
  forallb serializable l = true ->
  list_sum (map (fun x => S (sz x)) l)
  <= String.length (String.concat "," (map elem_text l)) + 1.
Proof.
  induction 1 as [|x l Hx Hl IH]; intros Hs; [cbn; lia|].
  cbn [forallb] in Hs. apply andb_prop in Hs as [Hsx Hsl].
  cbn [map list_sum fold_right].
  specialize (IH Hsl). specialize (Hx Hsx).
  destruct (length_concat_cons "," (elem_text x) (map elem_text l)) as [H1 H2].
  destruct l as [|y l]; [cbn in *; lia|].
  rewrite H2 by discriminate. cbn [String.length].
  unfold list_sum in IH. lia.
Qed.

Lemma sz_members (l : list (string * jsval)) :
  Forall (fun kv => serializable (snd kv) = true ->
                    sz (snd kv) <= String.length (elem_text (snd kv))) l ->
  forallb (fun kv => serializable (snd kv)) l = true ->
  list_sum (map (fun kv => S (sz (snd kv))) l)
  <= String.length (String.concat "," (map member_text l)) + 1.
Proof.
  induction 1 as [|[k x] l Hx Hl IH]; intros Hs; [cbn; lia|].
  cbn [forallb snd] in Hs. apply andb_prop in Hs as [Hsx Hsl].
  cbn [map list_sum fold_right snd]. cbn [snd] in Hx.
  specialize (IH Hsl). specialize (Hx Hsx).
  destruct (length_concat_cons "," (member_text (k, x)) (map member_text l))
    as [H1 H2].
  assert (Hm : String.length (elem_text x) <= String.length (member_text (k, x))).
  { rewrite member_text_unfold. cbn [String.length].
    rewrite length_append. cbn [String.length]. lia. }
  destruct l as [|y l]; [cbn in *; lia|].
  rewrite H2 by discriminate. cbn [String.length].
  unfold list_sum in IH. lia.
Qed.

Lemma sz_le_length (v : jsval) :
  serializable v = true -> sz v <= String.length (elem_text v).
Proof.
  induction v using jsval_nested_ind; intros Hs.
  - discriminate.
  - cbn; lia.
  - destruct b; cbn; lia.
  - destruct (text_head (VNum n)) as (c & t & -> & _). cbn; lia.
  - destruct (text_head (VStr s)) as (c & t & -> & _). cbn; lia.
  - cbn [serializable] in Hs. unfold elem_text. rewrite stringify_arr.
    cbn [sz String.length append]. rewrite length_append. cbn [String.length].
    generalize (sz_elements l H Hs). lia.
  - cbn [serializable] in Hs. apply andb_prop in Hs as [Hs Hd].
    unfold elem_text. rewrite (stringify_obj _ Hs).
    cbn [sz String.length append]. rewrite length_append. cbn [String.length].
    generalize (sz_members l H Hs). lia.
Qed.

(** [JSON.parse] reads back what [JSON.stringify] printed. *)
Lemma JSON_parse_stringify (v : jsval) :
  serializable v = true ->
  exists t, JSON_stringify v = Some t /\ JSON_parse t = Some v.
Proof.
  intros Hs. exists (elem_text v). split; [now apply stringify_serializable|].
  unfold JSON_parse.
  rewrite <- (append_nil_r (elem_text v)) at 2.
  rewrite (parse_value_text v Hs); [reflexivity | | reflexivity].
  generalize (sz_le_length v Hs). lia.
Qed.

Lemma truthy_text (v : jsval) : truthy (VStr (elem_text v)) = true.
Proof. destruct (text_head v) as (c & t & -> & _). reflexivity. Qed.

Lemma wrap_text (v : jsval) :
  serializable v = true -> v <> VNull ->
  wrap v = VStr (elem_text (VObj [("value", v)]))
  /\ serializable (VObj [("value", v)]) = true.
Proof.
  intros Hs Hn.
  assert (Ho : serializable (VObj [("value", v)]) = true).
  { cbn. now rewrite Hs. }
  split; trivial. unfold wrap.
  rewrite (stringify_serializable _ Ho).
  destruct v; try reflexivity; [discriminate | now elim Hn].
Qed.

(** On the values of the model that [JSON.stringify] prints in full (no
    [undefined] below the top, distinct property names) the codec gives the
    value back. *)
Lemma unwrap_wrap (v : jsval) :
  serializable v = true -> v <> VNull -> unwrap (wrap v) = v.
Proof.
  intros Hs Hn. destruct (wrap_text v Hs Hn) as [-> Ho].
  unfold unwrap. rewrite truthy_text. cbn [typeof negb orb String.eqb].
  change ("string" =? "string") with true. cbv iota.
  destruct (JSON_parse_stringify _ Ho) as (t & Ht & Hp).
  rewrite (stringify_serializable _ Ho) in Ht. injection Ht as <-.
  rewrite Hp. reflexivity.
Qed.

(** ** localStorage *)

Lemma assoc_get_in (l : list (string * string)) (kv : string * string) :
  NoDup (map fst l) -> In kv l -> assoc_get l (fst kv) = Some (snd kv).
Proof.
  induction l as [|[k v] l IH]; intros Hnd Hin; [now elim Hin|].
  cbn [map fst] in Hnd. inversion Hnd as [|? ? Hk Hl]; subst.
  cbn [assoc_get]. destruct Hin as [<-|Hin].
  - cbn [fst snd]. now rewrite String.eqb_refl.
  - destruct (String.eqb_spec k (fst kv)) as [->|_]; [|now apply IH].
    elim Hk. now apply in_map.
Qed.

Lemma assoc_get_none (l : list (string * string)) (k : string) :
  ~ In k (map fst l) -> assoc_get l k = None.
Proof.
  induction l as [|[k' v] l IH]; intros Hk; [reflexivity|].
  cbn [assoc_get]. cbn [map fst In] in Hk.
  destruct (String.eqb_spec k' k) as [->|_]; [elim Hk; now left|].
  apply IH. intros H. apply Hk. now right.
Qed.

Lemma assoc_get_filter (f : string -> bool) (l : list (string * string))
  (k : string) :
  assoc_get (filter (fun kv => f (fst kv)) l) k
  = if f k then assoc_get l k else None.
Proof.
  induction l as [|[k' v] l IH]; cbn [filter assoc_get fst].
  - now destruct (f k).
  - destruct (f k') eqn:Hk'; cbn [assoc_get];
      destruct (String.eqb_spec k' k) as [->|Hne]; trivial.
    + now rewrite Hk'.
    + rewrite IH. now rewrite Hk'.
Qed.

Lemma assoc_remove_middle (a b : list (string * string)) (x : string * string) :
  ~ In (fst x) (map fst a) ->
  assoc_remove (a ++ x :: b)%list (fst x) = (a ++ b)%list.
Proof.
  induction a as [|[k v] a IH]; intros Hk.
  - destruct x as [k v]. cbn. now rewrite String.eqb_refl.
  - cbn [List.app assoc_remove]. cbn [map fst In] in Hk.
    destruct (String.eqb_spec k (fst x)) as [E|_]; [elim Hk; now left|].
    rewrite IH; trivial. intros H. apply Hk. now right.
Qed.

Lemma key_middle (q : nat) (a b : list (string * string)) (x : string * string) :
  key {| items := (a ++ x :: b)%list; quota := q |} (List.length a)
  = Some (fst x).
Proof.
  unfold key. cbn [items]. rewrite nth_error_app2 by lia.
  now rewrite Nat.sub_diag.
Qed.

Lemma NoDup_keys_middle (a b : list (string * string)) (x : string * string) :
  NoDup (map fst (a ++ x :: b)%list) ->
  ~ In (fst x) (map fst a) /\ NoDup (map fst (a ++ b)%list).
Proof.
  rewrite !map_app. cbn [map]. intros H. split.
  - apply NoDup_remove_2 in H. intros Hin. apply H. apply in_or_app. now left.
  - now apply NoDup_remove_1 in H.
Qed.

(** ** The [clear] loop *)

Lemma indexOf_eqb_zero (s p : string) :
  (indexOf s p =? 0)%Z = String.prefix p s.
Proof.
  destruct (String.prefix p s) eqn:E.
  - apply Z.eqb_eq. now apply indexOf_zero.
  - apply Z.eqb_neq. intros H. apply indexOf_zero in H. congruence.
Qed.

Lemma clear_loop_split (p : string) (q : nat) (a : list (string * string)) :
  forall b,
    NoDup (map fst (a ++ b)%list) ->
    clear_loop p {| items := (a ++ b)%list; quota := q |} (List.length a)
    = Ok {| items := (filter (keeps p) a ++ b)%list; quota := q |}.
Proof.
  induction a as [|x a IH] using rev_ind; intros b Hnd; [reflexivity|].
  rewrite <- List.app_assoc in Hnd |- *. cbn [List.app] in Hnd |- *.
  rewrite length_app, Nat.add_comm. cbn [List.length plus clear_loop].
  rewrite key_middle, indexOf_eqb_zero.
  rewrite filter_app. cbn [filter]. unfold keeps at 2.
  destruct (NoDup_keys_middle _ _ _ Hnd) as [Hx Hab].
  destruct (String.prefix p (fst x)); cbn [negb].
  - unfold removeItem. cbn [items quota].
    rewrite assoc_remove_middle; trivial.
    rewrite IH; trivial. now rewrite List.app_nil_r.
  - rewrite IH; trivial. now rewrite <- List.app_assoc.
Qed.

Lemma clear_loop_filter (p : string) (st : Storage) :
  wf_storage st ->
  clear_loop p st (Storage_length st)
  = Ok {| items := filter (keeps p) (items st); quota := quota st |}.
Proof.
  intros Hwf. destruct st as [l q]. unfold Storage_length, wf_storage in *.
  cbn [items quota] in *.
  generalize (clear_loop_split p q l []). rewrite !List.app_nil_r.
  intros H. now apply H.
Qed.

Lemma getItem_cleared (p : string) (st : Storage) (k : string) :
  getItem {| items := filter (keeps p) (items st); quota := quota st |} k
  = if String.prefix p k then None else getItem st k.
Proof.
  unfold getItem. cbn [items].
  rewrite (assoc_get_filter (fun k => negb (String.prefix p k))).
  now destruct (String.prefix p k).
Qed.

Lemma wf_filter (f : string * string -> bool) (st : Storage) :
  wf_storage st ->
  wf_storage {| items := filter f (items st); quota := quota st |}.
Proof.
  unfold wf_storage. cbn [items]. induction (items st) as [|x l IH]; intros H.
  - constructor.
  - cbn [map] in H. inversion H as [|? ? Hx Hl]; subst. cbn [filter].
    destruct (f x); [|now apply IH].
    cbn [map]. constructor; [|now apply IH].
    intros Hin. apply Hx. apply in_map_iff in Hin as (y & Hy & Hin).
    apply filter_In in Hin as [Hin _]. rewrite <- Hy. now apply in_map.
Qed.

(** ** The [load] loop *)

Lemma append_inj (p a b : string) : p ++ a = p ++ b -> a = b.
Proof.
  induction p as [|c p IH]; cbn; intros H; [exact H|].
  injection H as H. now apply IH.
Qed.

Lemma out_of_scope_value (scope : option (list string)) (k : string) :
  out_of_scope (scope_value scope) k = Ok (negb (in_scope scope k)).
Proof.
  destruct scope as [l|]; [|reflexivity].
  unfold out_of_scope. cbn [scope_value truthy negb in_scope]. do 2 f_equal.
  induction l as [|s l IH]; [reflexivity|].
  cbn [map existsb strict_equals_string]. now rewrite IH.
Qed.

Lemma load_loop_fold (p : string) (scope : option (list string)) (q : nat)
  (b : list (string * string)) :
  forall a acc,
    NoDup (map fst (a ++ b)%list) ->
    load_loop p (scope_value scope) {| items := (a ++ b)%list; quota := q |}
      (List.length b) (List.length a) acc
    = Ok (fold_left (load_step p scope) b acc).
Proof.
  induction b as [|x b IH]; intros a acc Hnd; [reflexivity|].
  cbn [List.length load_loop fold_left].
  rewrite key_middle, indexOf_eqb_zero.
  assert (Hv : item_value {| items := (a ++ x :: b)%list; quota := q |} (fst x)
               = VStr (snd x)).
  { unfold item_value, getItem. cbn [items].
    rewrite (assoc_get_in _ x Hnd); trivial.
    apply in_or_app. right. now left. }
  assert (Hnext : load_loop p (scope_value scope)
                    {| items := (a ++ x :: b)%list; quota := q |}
                    (List.length b) (S (List.length a))
                    (load_step p scope acc x)
                  = Ok (fold_left (load_step p scope) b (load_step p scope acc x))).
  { replace (a ++ x :: b)%list with ((a ++ [x]) ++ b)%list in *
      by now rewrite <- List.app_assoc.
    replace (S (List.length a)) with (List.length (a ++ [x])%list)
      by (rewrite length_app; cbn; lia).
    now apply IH. }
  revert Hnext. generalize (fold_left (load_step p scope) b). intros F.
  unfold load_step.
  destruct (String.prefix p (fst x)); [|exact (fun H => H)].
  rewrite out_of_scope_value, Hv.
  destruct (in_scope scope (substr (fst x) (String.length p)));
    cbn [negb]; exact (fun H => H).
Qed.

Lemma load_loop_items (p : string) (scope : option (list string))
  (st : Storage) :
  wf_storage st ->
  load_loop p (scope_value scope) st (Storage_length st) 0 empty_object
  = Ok (fold_left (load_step p scope) (items st) empty_object).
Proof.
  intros Hwf. destruct st as [l q].
  exact (load_loop_fold p scope q l [] empty_object Hwf).
Qed.

Lemma obj_find_set (l : list (string * jsval)) (k k' : string) (v : jsval) :
  obj_find (obj_set l k v) k' = if k =? k' then Some v else obj_find l k'.
Proof.
  induction l as [|[k0 v0] l IH]; cbn [obj_set obj_find]; [reflexivity|].
  destruct (String.eqb_spec k0 k) as [->|Hne]; cbn [obj_find].
  - now destruct (k =? k').
  - rewrite IH. destruct (String.eqb_spec k0 k') as [->|_]; trivial.
    destruct (String.eqb_spec k k') as [->|_]; trivial. now elim Hne.
Qed.

Lemma obj_set_keys (l : list (string * jsval)) (k : string) (v : jsval) :
  forall k', In k' (map fst (obj_set l k v)) -> k' = k \/ In k' (map fst l).
Proof.
  induction l as [|[k0 v0] l IH]; cbn [obj_set map fst In]; intros k' H.
  - destruct H as [<-|[]]. now left.
  - destruct (k0 =? k); cbn [map fst In] in H.
    + destruct H as [<-|H]; auto.
    + destruct H as [<-|H]; auto. destruct (IH _ H); auto.
Qed.

Lemma obj_set_NoDup (l : list (string * jsval)) (k : string) (v : jsval) :
  NoDup (map fst l) -> NoDup (map fst (obj_set l k v)).
Proof.
  induction l as [|[k0 v0] l IH]; cbn [obj_set map fst]; intros H.
  - constructor; [intros [] | constructor].
  - inversion H as [|? ? Hk Hl]; subst.
    destruct (String.eqb_spec k0 k) as [->|Hne]; cbn [map fst].
    + now constructor.
    + constructor; [|now apply IH].
      intros Hin. destruct (obj_set_keys _ _ _ _ Hin); auto.
Qed.

Lemma loaded_NoDup (p : string) (scope : option (list string))
  (b : list (string * string)) :
  forall acc, NoDup (map fst acc) ->
              NoDup (map fst (fold_left (own_step p scope) b acc)).
Proof.
  induction b as [|x b IH]; intros acc H; [exact H|].
  cbn [fold_left]. apply IH. unfold own_step.
  destruct (String.prefix p (fst x)); trivial.
  destruct (in_scope scope _); trivial. now apply obj_set_NoDup.
Qed.

Lemma obj_find_loaded (p : string) (scope : option (list string)) (k : string)
  (b : list (string * string)) :
  forall acc,
    NoDup (map fst b) ->
    obj_find (fold_left (own_step p scope) b acc) k
    = if in_scope scope k
      then match assoc_get b (p ++ k) with
           | Some s => Some (unwrap (VStr s))
           | None => obj_find acc k
           end
      else obj_find acc k.
Proof.
  induction b as [|[k0 v0] b IH]; intros acc Hnd.
  - cbn. now destruct (in_scope scope k).
  - cbn [map fst] in Hnd. inversion Hnd as [|? ? Hk0 Hb]; subst.
    cbn [fold_left]. rewrite (IH _ Hb). cbn [assoc_get].
    unfold own_step. cbn [fst snd].
    destruct (String.prefix p k0) eqn:Hp.
    + apply prefix_split in Hp.
      set (sk := substr k0 (String.length p)) in *.
      destruct (String.eqb_spec k0 (p ++ k)) as [E|Hne].
      * assert (sk = k) as -> by (apply (append_inj p); congruence).
        destruct (in_scope scope k); trivial.
        rewrite assoc_get_none by (rewrite <- E; exact Hk0).
        rewrite obj_find_set. now rewrite String.eqb_refl.
      * destruct (in_scope scope sk); trivial.
        rewrite obj_find_set.
        destruct (String.eqb_spec sk k) as [->|_]; [now elim Hne|reflexivity].
    + destruct (String.eqb_spec k0 (p ++ k)) as [->|_]; trivial.
      now rewrite prefix_append in Hp.
Qed.

(** *** The write to [__proto__] *)

Lemma assign_other (o : js_object) (k : string) (v : jsval) :
  k <> "__proto__" ->
  assign o k v = {| own := obj_set (own o) k v; proto := proto o |}.
Proof.
  intros Hk. unfold assign.
  destruct (String.eqb_spec k "__proto__") as [E|_]; [now elim Hk|reflexivity].
Qed.

Lemma assign_proto (o : js_object) (v : jsval) :
  proto o = ObjectPrototype ->
  has_own (own o) "__proto__" = false ->
  assign o "__proto__" v = {| own := own o; proto := installed v |}.
Proof.
  intros Hp Ho. unfold assign. rewrite Hp, Ho. cbn.
  destruct o as [l q]. cbn in Hp. subst q. now destruct v.
Qed.

(** An entry whose storage key is not [p ++ "__proto__"] is written as an
    own property. *)
Lemma load_step_other (p : string) (scope : option (list string))
  (r : js_object) (kv : string * string) :
  fst kv <> p ++ "__proto__" ->
  load_step p scope r kv
  = {| own := own_step p scope (own r) kv; proto := proto r |}.
Proof.
  intros Hk. unfold load_step, own_step.
  destruct (String.prefix p (fst kv)) eqn:Hp; [|now destruct r].
  destruct (in_scope scope _); [|now destruct r].
  apply assign_other. intros E. apply Hk.
  apply prefix_split in Hp. now rewrite Hp at 1; rewrite E.
Qed.

Lemma fold_other (p : string) (scope : option (list string))
  (b : list (string * string)) :
  ~ In (p ++ "__proto__") (map fst b) ->
  forall r,
    fold_left (load_step p scope) b r
    = {| own := fold_left (own_step p scope) b (own r); proto := proto r |}.
Proof.
  induction b as [|x b IH]; intros Hb r; [now destruct r|].
  cbn [fold_left]. cbn [map In] in Hb.
  rewrite load_step_other by (intros E; apply Hb; now left).
  rewrite IH by (intros H; apply Hb; now right). reflexivity.
Qed.

Lemma filter_other_than (k : string) (b : list (string * string)) :
  ~ In k (map fst b) -> filter (other_than k) b = b.
Proof.
  induction b as [|x b IH]; intros Hb; [reflexivity|].
  cbn [filter]. cbn [map In] in Hb. unfold other_than at 1.
  destruct (String.eqb_spec (fst x) k) as [E|_]; [elim Hb; now left|].
  cbn [negb]. f_equal. apply IH. intros H. apply Hb. now right.
Qed.

Lemma has_own_set (l : list (string * jsval)) (k k' : string) (v : jsval) :
  has_own (obj_set l k v) k' = ((k =? k') || has_own l k')%bool.
Proof.
  unfold has_own.
  induction l as [|[k0 v0] l IH]; cbn [obj_set existsb fst].
  - now rewrite orb_false_r.
  - destruct (String.eqb_spec k0 k) as [->|Hne]; cbn [existsb fst].
    + now destruct (k =? k').
    + rewrite IH. destruct (k0 =? k'), (k =? k'); reflexivity.
Qed.

Lemma own_step_has_own (p : string) (scope : option (list string))
  (l : list (string * jsval)) (kv : string * string) :
  fst kv <> p ++ "__proto__" ->
  has_own l "__proto__" = false ->
  has_own (own_step p scope l kv) "__proto__" = false.
Proof.
  intros Hk Hl. unfold own_step.
  destruct (String.prefix p (fst kv)) eqn:Hp; trivial.
  destruct (in_scope scope _); trivial.
  rewrite has_own_set, Hl, orb_false_r.
  destruct (String.eqb_spec (substr (fst kv) (String.length p)) "__proto__")
    as [E|_]; trivial.
  elim Hk. apply prefix_split in Hp. now rewrite Hp at 1; rewrite E.
Qed.

(** With unique storage keys, the loop writes [__proto__] at most once, on
    the object whose prototype is still [Object.prototype]. *)
Lemma fold_load_step (p : string) (scope : option (list string))
  (b : list (string * string)) :
  NoDup (map fst b) ->
  forall r,
    proto r = ObjectPrototype ->
    has_own (own r) "__proto__" = false ->
    fold_left (load_step p scope) b r
    = {| own := fold_left (own_step p scope)
                  (filter (other_than (p ++ "__proto__")) b) (own r);
         proto := if in_scope scope "__proto__"
                  then match assoc_get b (p ++ "__proto__") with
                       | Some s => installed (unwrap (VStr s))
                       | None => ObjectPrototype
                       end
                  else ObjectPrototype |}.
Proof.
  induction b as [|[k0 v0] b IH]; intros Hnd r Hp Ho.
  - cbn. destruct r as [l q]. cbn in Hp. subst q.
    now destruct (in_scope scope "__proto__").
  - cbn [map fst] in Hnd. inversion Hnd as [|? ? Hk0 Hb]; subst.
    cbn [fold_left filter assoc_get]. unfold other_than at 1. cbn [fst].
    destruct (String.eqb_spec k0 (p ++ "__proto__")) as [->|Hne]; cbn [negb].
    + rewrite fold_other by exact Hk0.
      rewrite filter_other_than by exact Hk0.
      unfold load_step. cbn [fst snd].
      rewrite prefix_append, substr_append.
      destruct (in_scope scope "__proto__").
      * rewrite assign_proto by assumption. reflexivity.
      * now rewrite Hp.
    + rewrite load_step_other by exact Hne. cbn [fold_left].
      rewrite IH; trivial. cbn [own].
      now apply own_step_has_own.
Qed.

Lemma assoc_get_other_than (p k : string) (b : list (string * string)) :
  assoc_get (filter (other_than (p ++ "__proto__")) b) (p ++ k)
  = if k =? "__proto__" then None else assoc_get b (p ++ k).
Proof.
  unfold other_than.
  rewrite (assoc_get_filter (fun k' => negb (k' =? p ++ "__proto__"))).
  destruct (String.eqb_spec k "__proto__") as [->|Hne].
  - now rewrite String.eqb_refl.
  - destruct (String.eqb_spec (p ++ k) (p ++ "__proto__")) as [E|_]; trivial.
    elim Hne. exact (append_inj _ _ _ E).
Qed.

(** [load] returns the object whose own properties are the in-scope keys
    under the prefix, the key [__proto__] excepted: the entry stored under
    it sets the prototype of the result. *)
Lemma load_loop_mapping (p : string) (scope : option (list string))
  (st : Storage) :
  wf_storage st ->
  exists r,
    load_loop p (scope_value scope) st (Storage_length st) 0 empty_object = Ok r
    /\ NoDup (map fst (own r))
    /\ (forall k, obj_find (own r) k
                  = if k =? "__proto__" then None
                    else if in_scope scope k
                         then decoded (getItem st (p ++ k))
                         else None)
    /\ proto r = if in_scope scope "__proto__"
                 then match getItem st (p ++ "__proto__") with
                      | Some s => installed (unwrap (VStr s))
                      | None => ObjectPrototype
                      end
                 else ObjectPrototype.
Proof.
  intros Hwf. rewrite (load_loop_items p scope st Hwf).
  rewrite (fold_load_step p scope (items st) Hwf empty_object eq_refl eq_refl).
  eexists. split; [reflexivity|]. cbn [own proto empty_object].
  split; [apply loaded_NoDup; constructor|].
  split; [|reflexivity].
  intros k.
  rewrite (obj_find_loaded p scope k)
    by exact (wf_filter _ st Hwf).
  rewrite assoc_get_other_than. unfold decoded, getItem. cbn [obj_find].
  destruct (k =? "__proto__"), (in_scope scope k); trivial;
    now destruct (assoc_get (items st) (p ++ k)).
Qed.

(** ** [setItem] *)

Lemma assoc_get_set (l : list (string * string)) (k k' v : string) :
  assoc_get (assoc_set l k v) k' = if k =? k' then Some v else assoc_get l k'.
Proof.
  induction l as [|[k0 v0] l IH]; cbn [assoc_set assoc_get]; [reflexivity|].
  destruct (String.eqb_spec k0 k) as [->|Hne]; cbn [assoc_get].
  - now destruct (k =? k').
  - rewrite IH. destruct (String.eqb_spec k0 k') as [->|_]; trivial.
    destruct (String.eqb_spec k k') as [->|_]; trivial. now elim Hne.
Qed.

Lemma assoc_set_keys (l : list (string * string)) (k v k' : string) :
  In k' (map fst (assoc_set l k v)) -> k' = k \/ In k' (map fst l).
Proof.
  induction l as [|[k0 v0] l IH]; cbn [assoc_set map fst In]; intros H.
  - destruct H as [<-|[]]. now left.
  - destruct (k0 =? k); cbn [map fst In] in H.
    + destruct H as [<-|H]; auto.
    + destruct H as [<-|H]; auto. destruct (IH H); auto.
Qed.

Lemma setItem_wf (st st' : Storage) (k v : string) :
  wf_storage st -> setItem st k v = Some st' -> wf_storage st'.
Proof.
  unfold wf_storage, setItem. intros Hwf.
  destruct (usage _ <=? quota st)%nat; [|discriminate].
  intros [= <-]. cbn [items].
  induction (items st) as [|[k0 v0] l IH]; cbn [assoc_set map fst].
  - constructor; [intros [] | constructor].
  - cbn [map fst] in Hwf. inversion Hwf as [|? ? Hk Hl]; subst.
    destruct (String.eqb_spec k0 k) as [->|Hne]; cbn [map fst].
    + now constructor.
    + constructor; [|now apply IH].
      intros Hin. destruct (assoc_set_keys _ _ _ _ Hin); auto.
Qed.

Lemma getItem_setItem (st st' : Storage) (k v k' : string) :
  setItem st k v = Some st' ->
  getItem st' k' = if k =? k' then Some v else getItem st k'.
Proof.
  unfold setItem, getItem.
  destruct (usage _ <=? quota st)%nat; [|discriminate].
  intros [= <-]. cbn [items]. apply assoc_get_set.
Qed.

(** ** The codec on values other than [undefined] and [null] *)

Lemma stringify_defined (v : jsval) :
  v <> VUndefined -> exists t, JSON_stringify v = Some t.
Proof. destruct v; intros H; try (eexists; reflexivity). now elim H. Qed.

Lemma wrap_defined (v : jsval) (t : string) :
  v <> VUndefined -> v <> VNull -> JSON_stringify v = Some t ->
  wrap v = VStr (wrapper_text t).
Proof.
  intros Hu Hn Ht. unfold wrap.
  replace (JSON_stringify (VObj [("value", v)])) with (Some (wrapper_text t)).
  - destruct v; try reflexivity; [now elim Hu | now elim Hn].
  - cbn [JSON_stringify flat_map snd fst]. rewrite Ht.
    cbn [List.app String.concat]. unfold wrapper_text.
    now rewrite !append_assoc.
Qed.

(* ================================================================= *)
(** * The codec and the preferences store: the claims *)

(** C4.  Preferences store [clear()]: whatever the underlying store holds,
    [clear()] returns, every key that starts with the bare prefix
    ([this.dataPrefix || '']) is gone afterwards, and every other key keeps
    its value. *)
Theorem C4_preferences_clear (el : Preferences.element) (w : World) :
  wf_storage (ls w) ->
  let bare := ToString (js_or (Preferences.dataPrefix el) (VStr "")) in
  exists w',
    Preferences.clear el w = Ok w'
    /\ (forall k, String.prefix bare k = true -> getItem (ls w') k = None)
    /\ (forall k, String.prefix bare k = false ->
                  getItem (ls w') k = getItem (ls w) k).
Proof.
  intros Hwf bare. unfold Preferences.clear. fold bare.
  rewrite (clear_loop_filter bare _ Hwf).
  eexists. split; [reflexivity|].
  split; intros k Hk; cbn [ls set_ls]; rewrite getItem_cleared, Hk; reflexivity.
Qed.

Lemma sample_items_wf : wf_storage (ls (window sample_items 1000)).
Proof.
  unfold wf_storage. cbn.
  repeat (constructor; [cbn; intuition discriminate|]). constructor.
Qed.

Lemma C4_clear_witness :
  wf_storage (ls (window sample_items 1000))
  /\ exists w',
      Preferences.clear Preferences.create (window sample_items 1000) = Ok w'
      /\ getItem (ls w') "_arc_.a" = None
      /\ getItem (ls w') "_other_.b" = Some (stored (VNum 1)).
Proof.
  split; [exact sample_items_wf|].
  destruct (C4_preferences_clear Preferences.create (window sample_items 1000)
              sample_items_wf) as (w' & Hc & Hgone & Hkept).
  exists w'. split; [exact Hc|]. split.
  - apply Hgone. reflexivity.
  - rewrite Hkept; reflexivity.
Defined.

(** C6.  Preferences store [store]: a successful [store(k, v)] of a value
    that is neither [null] nor [undefined] makes exactly one [setItem] call,
    after which the storage key [prefix + "." + k] holds the JSON text of
    [{ value: v }] and every other key is as before, and dispatches exactly
    one change notification, which carries [k] and the original [v]. *)
Theorem C6_preferences_store (el : Preferences.element) (k : string)
  (v : jsval) (w w' : World) (r : jsval) :
  v <> VUndefined -> v <> VNull ->
  Preferences.store el (VStr k) v w = (Resolved r, w') ->
  let sKey := ToString (js_or (Preferences.dataPrefix el) (VStr "")) ++ "." ++ k in
  exists t,
    JSON_stringify v = Some t
    /\ getItem (ls w') sKey = Some (wrapper_text t)
    /\ (forall k', k' <> sKey -> getItem (ls w') k' = getItem (ls w) k')
    /\ setItem_calls w' = (setItem_calls w ++ [(sKey, wrapper_text t)])%list
    /\ dispatched w' = (dispatched w ++ [(VStr k, v)])%list.
Proof.
  intros Hu Hn Hst sKey.
  destruct (stringify_defined v Hu) as [t Ht]. exists t. split; trivial.
  revert Hst. unfold Preferences.store, call_setItem. cbn [ToString].
  fold sKey. rewrite (wrap_defined v t Hu Hn Ht). cbn [ToString].
  destruct (setItem (ls w) sKey (wrapper_text t)) as [st|] eqn:Hset;
    [|discriminate].
  intros [= _ <-]. cbn.
  split; [|split; [|split]]; trivial.
  - rewrite (getItem_setItem _ _ _ _ sKey Hset). now rewrite String.eqb_refl.
  - intros k' Hk'. rewrite (getItem_setItem _ _ _ _ k' Hset).
    destruct (String.eqb_spec sKey k') as [<-|_]; trivial. now elim Hk'.
Qed.

Lemma C6_store_witness :
  exists t,
    JSON_stringify (VBool true) = Some t
    /\ getItem (ls (snd (Preferences.store Preferences.create (VStr "key")
                           (VBool true) (window [] 1000)))) "_arc_.key"
       = Some (wrapper_text t).
Proof.
  destruct (C6_preferences_store Preferences.create "key" (VBool true)
              (window [] 1000)
              (snd (Preferences.store Preferences.create (VStr "key")
                      (VBool true) (window [] 1000)))
              VUndefined ltac:(discriminate) ltac:(discriminate) eq_refl)
    as (t & Ht & Hg & _).
  exists t. split; [exact Ht | exact Hg].
Defined.

(** C7.  Preferences store [store], error path: when the underlying store
    rejects the write, [store] returns a promise rejected with the error
    that [setItem] threw, no change notification is dispatched and the
    stored entries are untouched. *)
Theorem C7_preferences_store_error (el : Preferences.element)
  (key value : jsval) (w : World) :
  let sKey := ToString (js_or (Preferences.dataPrefix el) (VStr ""))
              ++ "." ++ ToString key in
  setItem (ls w) sKey (ToString (wrap value)) = None ->
  exists w',
    Preferences.store el key value w = (Rejected QuotaExceededError, w')
    /\ dispatched w' = dispatched w
    /\ ls w' = ls w.
Proof.
  intros sKey Hset. unfold Preferences.store, call_setItem. fold sKey.
  rewrite Hset. eexists. split; [reflexivity|]. split; reflexivity.
Qed.

Lemma C7_store_error_witness :
  setItem (ls (window [] 10)) "_arc_.key" (ToString (wrap (VBool true))) = None
  /\ exists w',
      Preferences.store Preferences.create (VStr "key") (VBool true)
        (window [] 10) = (Rejected QuotaExceededError, w')
      /\ dispatched w' = dispatched (window [] 10)
      /\ ls w' = ls (window [] 10).
Proof.
  split; [reflexivity|].
  apply (C7_preferences_store_error Preferences.create (VStr "key")
           (VBool true) (window [] 10)).
  reflexivity.
Defined.

(** C8.  Preferences store [load]: for every state of the underlying store
    and every scope, [load] returns.  For every logical key [k] other than
    [__proto__], the result has the own key [k] exactly when [k] is in scope
    and the storage key [prefix + "." + k] exists, and then maps it to the
    decoded stored text; with no scope every such key under the prefix is
    returned.  The logical key [__proto__] is the exception to what the
    claim says: the write [result[settingKey] = value] reaches the setter of
    [Object.prototype], so the result never has an own key [__proto__];
    the decoded value stored under it becomes the prototype of the result
    when it is an object, an array or [null], and is dropped otherwise.
    The legacy and the current element agree. *)
Theorem C8_preferences_load (el : Preferences.element) (p : string)
  (scope : option (list string)) (w : World) :
  Preferences.dataPrefix el = VStr p ->
  wf_storage (ls w) ->
  exists r,
    Preferences.load_object el (scope_value scope) w = Ok r
    /\ Preferences.load_object_legacy el (scope_value scope) w = Ok r
    /\ Preferences.load el (scope_value scope) w = Ok (VObj (own r))
    /\ Preferences.load_legacy el (scope_value scope) w = Ok (VObj (own r))
    /\ NoDup (map fst (own r))
    /\ (forall k, k <> "__proto__" ->
                  obj_find (own r) k
                  = if in_scope scope k
                    then decoded (getItem (ls w) (p ++ "." ++ k))
                    else None)
    /\ obj_find (own r) "__proto__" = None
    /\ proto r = if in_scope scope "__proto__"
                 then match getItem (ls w) (p ++ "." ++ "__proto__") with
                      | Some s => installed (unwrap (VStr s))
                      | None => ObjectPrototype
                      end
                 else ObjectPrototype.
Proof.
  intros Hp Hwf.
  destruct (load_loop_mapping (p ++ ".") scope (ls w) Hwf)
    as (r & Hr & Hnd & Hk & Hproto).
  exists r.
  unfold Preferences.load, Preferences.load_legacy,
    Preferences.load_object, Preferences.load_object_legacy.
  rewrite Hp.
  assert (E : ToString (js_or (VStr p) (VStr "")) = p).
  { unfold js_or. cbn [truthy].
    destruct (String.eqb_spec p "") as [->|_]; reflexivity. }
  rewrite E. cbn [ToString]. rewrite Hr.
  do 5 (split; [trivial|]). split; [|split].
  - intros k Hne. rewrite Hk, append_assoc.
    destruct (String.eqb_spec k "__proto__") as [->|_]; [now elim Hne|].
    reflexivity.
  - now rewrite Hk.
  - now rewrite Hproto, append_assoc.
Qed.

Lemma proto_items_wf : wf_storage (ls (window proto_items 1000)).
Proof.
  unfold wf_storage. cbn.
  repeat (constructor; [cbn; intuition discriminate|]). constructor.
Qed.

Lemma C8_load_witness :
  Preferences.dataPrefix Preferences.create = VStr "_arc_"
  /\ getItem (ls (window proto_items 1000)) "_arc_.__proto__"
     = Some (stored (VObj [("b", VBool true)]))
  /\ exists r,
      Preferences.load_object Preferences.create (scope_value None)
        (window proto_items 1000) = Ok r
      /\ own r = [("a", VStr "a"); ("c", VNum 12)]
      /\ obj_find (own r) "__proto__" = None
      /\ proto r = ValuePrototype (VObj [("b", VBool true)]).
Proof.
  split; [reflexivity|]. split; [reflexivity|].
  destruct (C8_preferences_load Preferences.create "_arc_" None
              (window proto_items 1000) eq_refl proto_items_wf)
    as (r & Hl & _ & _ & _ & _ & _ & Hnone & Hproto).
  exists r. split; [exact Hl|]. split; [|split; [exact Hnone | exact Hproto]].
  vm_compute in Hl. now injection Hl as <-.
Defined.

(** C10.  Write requests that are not cancelable or whose default is
    already prevented: the [settings-changed] handler and the
    [workspace-state-store] handler return without touching the event (no
    result set, default not prevented, propagation not stopped), the
    underlying store, the pending workspace or the timers; [store] is not
    called. *)
Theorem C10_ineligible_event_ignored (pel : Preferences.element)
  (e : CustomEvent) (w : World) (s : Workspace.element * World) :
  cancelable e = false \/ defaultPrevented e = true ->
  Preferences._changeHandler pel e w = (e, w)
  /\ Workspace._changeHandler e s = (e, s).
Proof.
  intros H. unfold Preferences._changeHandler, Workspace._changeHandler.
  destruct H as [-> | ->]; cbn [negb orb]; [|rewrite orb_true_r]; split; reflexivity.
Qed.

Lemma C10_ignored_witness :
  Preferences._changeHandler Preferences.create
    (write_request (VStr "key") (VBool true) false false) (window [] 1000)
  = (write_request (VStr "key") (VBool true) false false, window [] 1000)
  /\ Workspace._changeHandler
       (write_request VUndefined workspace_one true true)
       (Workspace.create, window [] 1000)
     = (write_request VUndefined workspace_one true true,
        (Workspace.create, window [] 1000)).
Proof.
  split.
  - apply (C10_ineligible_event_ignored Preferences.create
             (write_request (VStr "key") (VBool true) false false)
             (window [] 1000) (Workspace.create, window [] 1000)).
    left; reflexivity.
  - apply (C10_ineligible_event_ignored Preferences.create
             (write_request VUndefined workspace_one true true)
             (window [] 1000) (Workspace.create, window [] 1000)).
    right; reflexivity.
Defined.

(* ================================================================= *)
(** * The workspace store: the claims *)

(** ** The debounced write *)

Lemma _store_spec (el : Workspace.element) (v : jsval) (w : World) :
  Workspace._store el v w
  = {| ls := write_all (field_writes el v) (ls w);
       setItem_calls := (setItem_calls w ++ field_writes el v)%list;
       dispatched := dispatched w; now := now w; timers := timers w;
       next_timer := next_timer w |}.
Proof.
  unfold Workspace._store, field_writes.
  destruct (truthy v); cbn [negb].
  2:{ destruct w; cbn. now rewrite List.app_nil_r. }
  generalize (Object_keys v). intros keys. revert w.
  induction keys as [|k keys IH]; intros w.
  - destruct w; cbn. now rewrite List.app_nil_r.
  - cbn [fold_left map]. rewrite IH. unfold call_setItem, write_all.
    cbn [fold_left fst snd].
    destruct (setItem (ls w) _ _); cbn; now rewrite <- List.app_assoc.
Qed.

Lemma store_spec (v : jsval) (el : Workspace.element) (w : World) :
  owns_timers (el, w) ->
  Workspace.store v (el, w)
  = ({| Workspace.prefix := Workspace.prefix el;
        Workspace.dataPrefix := Workspace.dataPrefix el;
        Workspace.__pendingWorkspace := v;
        Workspace.__workspaceWriteDebounce := Some (next_timer w) |},
     {| ls := ls w; setItem_calls := setItem_calls w;
        dispatched := dispatched w; now := now w;
        timers := [(next_timer w, now w + 500)];
        next_timer := Pos.succ (next_timer w) |}).
Proof.
  unfold owns_timers. cbn [fst snd]. intros Hown.
  unfold Workspace.store, Workspace.set_pending, Workspace.set_debounce,
    setTimeout, clearTimeout.
  cbn [Workspace.__workspaceWriteDebounce Workspace.prefix
       Workspace.dataPrefix Workspace.__pendingWorkspace].
  assert (E : timers (match Workspace.__workspaceWriteDebounce el with
                      | Some h =>
                          {| ls := ls w; setItem_calls := setItem_calls w;
                             dispatched := dispatched w; now := now w;
                             timers := filter (fun t => negb (Pos.eqb (fst t) h))
                                         (timers w);
                             next_timer := next_timer w |}
                      | None => w
                      end) = []).
  { destruct (Workspace.__workspaceWriteDebounce el) as [h|]; cbn [timers].
    - induction (timers w) as [|tm l IH]; [reflexivity|]. cbn [filter].
      assert (Some h = Some (fst tm)) as [= ->] by (apply Hown; now left).
      rewrite Pos.eqb_refl. cbn [negb]. apply IH.
      intros tm' Hin. apply Hown. now right.
    - destruct (timers w) as [|tm l]; [reflexivity|].
      discriminate (Hown tm (or_introl eq_refl)). }
  destruct (Workspace.__workspaceWriteDebounce el); cbn in E |- *;
    rewrite E; reflexivity.
Qed.

Lemma advance_early (d : nat) (el : Workspace.element) (w : World)
  (id : positive) (due : nat) :
  timers w = [(id, due)] -> now w + d < due ->
  Workspace.advance d (el, w) = (el, set_clock w (now w + d) [(id, due)]).
Proof.
  intros Ht Hd. unfold Workspace.advance. rewrite Ht. cbn [filter snd].
  destruct (Nat.leb_spec due (now w + d)); [lia|]. reflexivity.
Qed.

Lemma advance_due (d : nat) (el : Workspace.element) (w : World)
  (id : positive) (due : nat) :
  timers w = [(id, due)] -> due <= now w + d ->
  Workspace.advance d (el, w)
  = Workspace.flush (el, set_clock w (now w + d) []).
Proof.
  intros Ht Hd. unfold Workspace.advance. rewrite Ht. cbn [filter snd].
  destruct (Nat.leb_spec due (now w + d)); [|lia]. reflexivity.
Qed.

Lemma store_owns_timers (v : jsval) (s : Workspace.element * World) :
  owns_timers s -> owns_timers (Workspace.store v s).
Proof.
  destruct s as [el w]. intros H. rewrite (store_spec v el w H).
  intros tm [<-|[]]. reflexivity.
Qed.

(** C2.  Workspace store debounce: when [store(v1)] is followed by
    [store(v2)] less than 500 ms later on the same element, then once 500 ms
    have passed after the second call the underlying store has received the
    [setItem] calls for the fields of [v2] and no others: [v1] is never
    written.  The pending workspace and the timer are cleared. *)
Theorem C2_debounce_keeps_last_value (el : Workspace.element) (w : World)
  (v1 v2 : jsval) (d d' : nat) :
  owns_timers (el, w) -> d < 500 -> 500 <= d' ->
  let s := Workspace.advance d'
             (Workspace.store v2
                (Workspace.advance d (Workspace.store v1 (el, w)))) in
  ls (snd s) = write_all (field_writes el v2) (ls w)
  /\ setItem_calls (snd s) = (setItem_calls w ++ field_writes el v2)%list
  /\ Workspace.__pendingWorkspace (fst s) = VUndefined
  /\ Workspace.__workspaceWriteDebounce (fst s) = None
  /\ timers (snd s) = [].
Proof.
  intros Hown Hd Hd'. rewrite (store_spec v1 el w Hown).
  rewrite (advance_early d _ _ (next_timer w) (now w + 500));
    [| reflexivity | cbn [now]; lia].
  rewrite store_spec.
  2:{ intros tm [<-|[]]. reflexivity. }
  cbn [set_clock ls setItem_calls dispatched now timers next_timer
       Workspace.prefix Workspace.dataPrefix].
  rewrite (advance_due d' _ _ (Pos.succ (next_timer w)) (now w + d + 500));
    [| reflexivity | cbn [now]; lia].
  unfold Workspace.flush, Workspace.set_debounce, Workspace.set_pending.
  cbn [Workspace.__pendingWorkspace Workspace.prefix Workspace.dataPrefix
       Workspace.__workspaceWriteDebounce].
  rewrite _store_spec. cbn [fst snd ls setItem_calls timers set_clock].
  unfold field_writes. cbn [Workspace.dataPrefix].
  repeat split; reflexivity.
Qed.

Lemma fresh_owns_timers (el : Workspace.element) (l : list (string * string))
  (q : nat) : owns_timers (el, window l q).
Proof. intros tm []. Qed.

Lemma C2_debounce_witness :
  let s := Workspace.advance 500
             (Workspace.store workspace_two
                (Workspace.advance 499
                   (Workspace.store workspace_one
                      (Workspace.create, window [] 1000)))) in
  items (ls (snd s)) = [("_arcworkspace.c", stored (VArr [VNum 1]))]
  /\ setItem_calls (snd s) = [("_arcworkspace.c", stored (VArr [VNum 1]))].
Proof.
  destruct (C2_debounce_keeps_last_value Workspace.create (window [] 1000)
              workspace_one workspace_two 499 500
              (fresh_owns_timers _ _ _) ltac:(lia) ltac:(lia))
    as (Hls & Hcalls & _).
  cbv zeta. rewrite Hls, Hcalls. split; reflexivity.
Defined.

(** C3 as stated fails: [store] does not validate its argument.  Called
    with [false] in the middle of a debounce window it returns nothing,
    replaces the pending workspace and starts a new timer. *)
Lemma C3_store_accepts_falsy :
  let s := Workspace.store (VBool false) pending_state in
  Workspace.__pendingWorkspace (fst pending_state) = workspace_one
  /\ Workspace.__pendingWorkspace (fst s) = VBool false
  /\ timers (snd pending_state) = [(1%positive, 500)]
  /\ timers (snd s) = [(2%positive, 500)]
  /\ ~ (Workspace.__pendingWorkspace (fst s)
        = Workspace.__pendingWorkspace (fst pending_state)
        /\ timers (snd s) = timers (snd pending_state)).
Proof.
  cbv zeta. repeat split; try reflexivity.
  intros [H _]. discriminate H.
Qed.

(** C3, amended.  The falsy value is refused by the event handler, not by
    [store]: for a cancelable write request that nobody has handled yet and
    whose value is falsy, [_changeHandler] puts a promise rejected with the
    error ["Value is not set."] on the event and returns before [store] is
    called, so no timer is scheduled and neither the pending workspace nor
    the underlying store changes.  [store] itself accepts any value: it
    records it as the pending workspace and starts a timer. *)
Theorem C3_falsy_value_rejected_by_handler (e : CustomEvent)
  (s : Workspace.element * World) :
  cancelable e = true -> defaultPrevented e = false ->
  truthy (value (detail e)) = false ->
  Workspace._changeHandler e s
  = (set_result (stopPropagation (preventDefault e))
       (Rejected (Error "Value is not set.")), s)
  /\ forall v,
      Workspace.__pendingWorkspace (fst (Workspace.store v s)) = v
      /\ Workspace.__workspaceWriteDebounce (fst (Workspace.store v s))
         = Some (next_timer (snd s)).
Proof.
  intros Hc Hp Hv. split.
  - unfold Workspace._changeHandler. rewrite Hc, Hp. cbn [negb orb].
    cbn [stopPropagation preventDefault detail]. now rewrite Hv.
  - intros v. destruct s as [el w]. unfold Workspace.store.
    destruct (Workspace.__workspaceWriteDebounce (Workspace.set_pending el v));
      split; reflexivity.
Qed.

Lemma C3_handler_witness :
  Workspace._changeHandler (write_request VUndefined VNull true false)
    pending_state
  = (set_result
       (stopPropagation
          (preventDefault (write_request VUndefined VNull true false)))
       (Rejected (Error "Value is not set.")), pending_state).
Proof.
  apply (C3_falsy_value_rejected_by_handler
           (write_request VUndefined VNull true false) pending_state);
    reflexivity.
Defined.

(** ** [clear] of the workspace store *)

(** C5.  Workspace store [clear()]: whatever the underlying store holds, on
    an element whose configured prefix [dataPrefix] is the string [p],
    [clear()] returns, every key that starts with [p] is gone afterwards,
    every other key keeps its value, and nothing is written or
    dispatched. *)
Theorem C5_workspace_clear (el : Workspace.element) (p : string)
  (w : World) :
  Workspace.dataPrefix el = VStr p -> wf_storage (ls w) ->
  exists w',
    Workspace.clear el w = Ok w'
    /\ (forall k, String.prefix p k = true -> getItem (ls w') k = None)
    /\ (forall k, String.prefix p k = false ->
                  getItem (ls w') k = getItem (ls w) k)
    /\ setItem_calls w' = setItem_calls w
    /\ dispatched w' = dispatched w.
Proof.
  intros Hp Hwf. unfold Workspace.clear. rewrite Hp. cbn [ToString].
  rewrite (clear_loop_filter p _ Hwf).
  eexists. split; [reflexivity|].
  split; [|split; [|split; reflexivity]];
    intros k Hk; cbn [ls set_ls]; rewrite getItem_cleared, Hk; reflexivity.
Qed.

Lemma workspace_items_wf : wf_storage (ls (window workspace_items 1000)).
Proof.
  unfold wf_storage. cbn.
  repeat (constructor; [cbn; intuition discriminate|]). constructor.
Qed.

Lemma C5_clear_witness :
  Workspace.dataPrefix Workspace.create = VStr "_arcworkspace"
  /\ exists w',
      Workspace.clear Workspace.create (window workspace_items 1000) = Ok w'
      /\ getItem (ls w') "_arcworkspace.a" = None
      /\ getItem (ls w') "undefined.b" = Some (stored (VNum 2))
      /\ getItem (ls w') ".c" = Some (stored (VNum 3)).
Proof.
  split; [reflexivity|].
  destruct (C5_workspace_clear Workspace.create "_arcworkspace"
              (window workspace_items 1000) eq_refl workspace_items_wf)
    as (w' & Hc & Hgone & Hkept & _).
  exists w'. split; [exact Hc|]. split; [|split].
  - apply Hgone. reflexivity.
  - rewrite Hkept; reflexivity.
  - rewrite Hkept; reflexivity.
Defined.

(** C9.  The methods of the legacy workspace element never consult the
    [prefix] property.  They read [this.dataPrefix], which that element
    does not define, so on any two receivers on which [dataPrefix] reads
    [undefined], whatever [prefix] reads on each, [load], [_store] and
    [clear] behave the same; [_store] writes each field under
    ["." + field]; and [load] scans the keys that begin with ["."]: apart
    from the key [__proto__], which a property write never creates, its
    result has the key [k] exactly when the storage key ["." + k] exists,
    with the decoded stored text. *)
Theorem C9_legacy_prefix_unused (el el' : Workspace.element)
  (workspace : jsval) (w : World) :
  Workspace.dataPrefix el = VUndefined ->
  Workspace.dataPrefix el' = VUndefined ->
  (Workspace.load_legacy el' w = Workspace.load_legacy el w
   /\ Workspace._store el' workspace w = Workspace._store el workspace w
   /\ Workspace.clear el' w = Workspace.clear el w)
  /\ setItem_calls (Workspace._store el workspace w)
     = (setItem_calls w
        ++ (if truthy workspace
            then map (fun field => (("." ++ field)%string,
                                    ToString (wrap (get_prop workspace field))))
                     (Object_keys workspace)
            else []))%list
  /\ (wf_storage (ls w) ->
      exists m,
        Workspace.load_legacy el w = Ok (VObj m)
        /\ (forall k, k <> "__proto__" ->
                      obj_find m k = decoded (getItem (ls w) ("." ++ k)))
        /\ obj_find m "__proto__" = None).
Proof.
  intros Hdp Hdp'. split; [|split].
  - unfold Workspace.load_legacy, Workspace.load_object_legacy,
      Workspace._store, Workspace.clear.
    rewrite Hdp, Hdp'. repeat split; reflexivity.
  - rewrite _store_spec. cbn [setItem_calls]. unfold field_writes.
    now rewrite Hdp.
  - intros Hwf.
    destruct (load_loop_mapping "." None (ls w) Hwf) as (r & Hr & _ & Hk & _).
    exists (own r).
    unfold Workspace.load_legacy, Workspace.load_object_legacy. rewrite Hdp.
    cbn [js_or truthy ToString append]. cbn [scope_value] in Hr.
    rewrite Hr. split; [reflexivity|]. split.
    + intros k Hne. rewrite Hk. cbn [in_scope].
      destruct (String.eqb_spec k "__proto__") as [->|_]; [now elim Hne|].
      reflexivity.
    + now rewrite Hk.
Qed.

Lemma C9_legacy_witness :
  Workspace.dataPrefix unset_workspace = VUndefined
  /\ Workspace.prefix other_workspace <> Workspace.prefix unset_workspace
  /\ Workspace._store other_workspace workspace_one (window [] 1000)
     = Workspace._store unset_workspace workspace_one (window [] 1000)
  /\ setItem_calls (Workspace._store unset_workspace workspace_one
                      (window [] 1000))
     = [(".a", stored (VNum 1)); (".b", stored (VStr "x"))].
Proof.
  destruct (C9_legacy_prefix_unused unset_workspace other_workspace
              workspace_one (window [] 1000) eq_refl eq_refl)
    as ((_ & Hs & _) & H & _).
  split; [reflexivity|]. split; [discriminate|]. split; [exact Hs|].
  rewrite H. reflexivity.
Defined.

(* ================================================================= *)
(** * The repository's tests, replayed on the embedding
    test/arc-local-store-preferences.test.js *)

Example test_wrap_undefined : wrap VUndefined = VUndefined.
Proof. reflexivity. Qed.

Example test_wrap_null : wrap VNull = VNull.
Proof. reflexivity. Qed.

Example test_wrap_json_string :
  wrap (VObj [("test", VBool true)])
  = VStr (lit ["{"; "value"; ":{"; "test"; ":true}}"]).
Proof. reflexivity. Qed.

Example test_unwrap_undefined : unwrap VUndefined = VUndefined.
Proof. reflexivity. Qed.

Example test_unwrap_null : unwrap VNull = VNull.
Proof. reflexivity. Qed.

Example test_unwrap_object :
  unwrap (VStr (lit ["{"; "value"; ":{"; "test"; ":true}}"]))
  = VObj [("test", VBool true)].
Proof. reflexivity. Qed.

Example test_unwrap_invalid_json :
  unwrap (VStr (lit ["{"; "value"; ""])) = VUndefined.
Proof. reflexivity. Qed.

Example test_stores_data :
  getItem (ls (snd (Preferences.store Preferences.create (VStr "key")
                      (VBool true) (window [] 1000)))) "_arc_.key"
  = Some (lit ["{"; "value"; ":true}"]).
Proof. reflexivity. Qed.

Example test_dispatches_settings_changed :
  dispatched (snd (Preferences.store Preferences.create (VStr "test-key")
                     (VNum 123) (window [] 1000)))
  = [(VStr "test-key", VNum 123)].
Proof. reflexivity. Qed.

Example test_stores_data_via_event :
  let e := write_request (VStr "test-key-event") (VStr "abc") true false in
  let (e', w') := Preferences._changeHandler Preferences.create e
                    (window [] 1000) in
  result (detail e') = Some (Resolved VUndefined)
  /\ defaultPrevented e' = true
  /\ getItem (ls w') "_arc_.test-key-event"
     = Some (lit ["{"; "value"; ":"; "abc"; "}"]).
Proof. repeat split; reflexivity. Qed.

Example test_reads_all_data :
  Preferences.load Preferences.create VUndefined (window sample_items 1000)
  = Ok (VObj [("a", VStr "a"); ("b", VBool true); ("c", VNum 12);
              ("d", VNull)]).
Proof. reflexivity. Qed.

Example test_reads_scoped_data :
  Preferences.load Preferences.create (VArr [VStr "a"; VStr "c"])
    (window sample_items 1000)
  = Ok (VObj [("a", VStr "a"); ("c", VNum 12)]).
Proof. reflexivity. Qed.

(** A stored [null] does not come back: [wrap(null)] is [null], [setItem]
    stores the text ["null"], and [unwrap] of that text is [undefined]. *)
Example null_is_not_round_tripped :
  stored VNull = "null" /\ unwrap (VStr (stored VNull)) = VUndefined.
Proof. split; reflexivity. Qed.

(* ================================================================= *)
(** * Further properties of the codec *)

(** X3.  A stored text that is valid JSON but not the wrapper object:
    [unwrap] gives the [value] property when the text is an object and
    [undefined] for every other JSON value, [null] included. *)
Theorem unwrap_bare_json (v : jsval) (t : string) :
  serializable v = true -> JSON_stringify v = Some t ->
  unwrap (VStr t) = match v with
                    | VObj l => obj_get l "value"
                    | _ => VUndefined
                    end.
Proof.
  intros Hs Ht. destruct (JSON_parse_stringify v Hs) as (t' & Ht' & Hp).
  rewrite Ht in Ht'. injection Ht' as <-.
  assert (Htruthy : truthy (VStr t) = true).
  { rewrite (stringify_serializable v Hs) in Ht. injection Ht as <-.
    apply truthy_text. }
  unfold unwrap. rewrite Htruthy. cbn [typeof negb orb].
  change ("string" =? "string") with true. cbv iota. rewrite Hp.
  destruct v; reflexivity.
Qed.

Lemma unwrap_bare_json_witness :
  unwrap (VStr "12") = VUndefined /\ unwrap (VStr "null") = VUndefined.
Proof.
  split.
  - exact (unwrap_bare_json (VNum 12) "12" eq_refl eq_refl).
  - exact (unwrap_bare_json VNull "null" eq_refl eq_refl).
Defined.

(* ================================================================= *)
(** * Further properties of the preferences store *)

Lemma string_prefix_text (p : string) :
  ToString (js_or (VStr p) (VStr "")) = p.
Proof.
  unfold js_or. cbn [truthy].
  destruct (String.eqb_spec p "") as [->|_]; reflexivity.
Qed.

Lemma store_resolved (el : Preferences.element) (key value r : jsval)
  (w w' : World) :
  Preferences.store el key value w = (Resolved r, w') ->
  let sKey := ToString (js_or (Preferences.dataPrefix el) (VStr ""))
              ++ "." ++ ToString key in
  setItem (ls w) sKey (ToString (wrap value)) = Some (ls w')
  /\ dispatched w' = (dispatched w ++ [(key, value)])%list.
Proof.
  unfold Preferences.store, call_setItem. cbv zeta.
  destruct (setItem (ls w) _ _) as [st|]; [|discriminate].
  intros [= _ <-]. split; reflexivity.
Qed.

Lemma wrap_stored (v : jsval) :
  v <> VUndefined -> v <> VNull -> VStr (stored v) = wrap v.
Proof.
  intros Hu Hn. destruct (stringify_defined v Hu) as [t Ht].
  unfold stored. now rewrite (wrap_defined v t Hu Hn Ht).
Qed.

(** X4.  [store] then [load]: after a successful [store(k, v)] under a
    logical key [k] other than [__proto__], [load()] of the legacy and of
    the current element maps [k] to what [unwrap] makes of the stored
    text, which is [unwrap (wrap v)] when [v] is neither [undefined] nor
    [null], and so [v] itself whenever the codec gives [v] back; every
    other key except [__proto__] is mapped to what it held before. *)
Theorem store_then_load (el : Preferences.element) (p k : string)
  (v r : jsval) (w w' : World) :
  Preferences.dataPrefix el = VStr p -> wf_storage (ls w) ->
  k <> "__proto__" ->
  Preferences.store el (VStr k) v w = (Resolved r, w') ->
  exists m,
    Preferences.load el VUndefined w' = Ok (VObj m)
    /\ Preferences.load_legacy el VUndefined w' = Ok (VObj m)
    /\ obj_find m k = Some (unwrap (VStr (stored v)))
    /\ (v <> VUndefined -> v <> VNull ->
        obj_find m k = Some (unwrap (wrap v)))
    /\ forall k', k' <> k -> k' <> "__proto__" ->
                  obj_find m k' = decoded (getItem (ls w) (p ++ "." ++ k')).
Proof.
  intros Hp Hwf Hk Hst.
  apply store_resolved in Hst as [Hset _]. cbv zeta in Hset.
  rewrite Hp, string_prefix_text in Hset. cbn [ToString] in Hset.
  assert (Hwf' := setItem_wf _ _ _ _ Hwf Hset).
  destruct (load_loop_mapping (p ++ ".") None (ls w') Hwf')
    as (m & Hm & _ & Hf & _).
  assert (Hfk : obj_find (own m) k = Some (unwrap (VStr (stored v)))).
  { rewrite Hf. cbn [in_scope]. rewrite append_assoc.
    destruct (String.eqb_spec k "__proto__") as [E|_]; [now elim Hk|].
    rewrite (getItem_setItem _ _ _ _ (p ++ "." ++ k) Hset), String.eqb_refl.
    reflexivity. }
  exists (own m).
  unfold Preferences.load, Preferences.load_legacy,
    Preferences.load_object, Preferences.load_object_legacy.
  rewrite Hp, string_prefix_text. cbn [ToString]. cbn [scope_value] in Hm.
  rewrite Hm. do 2 (split; [reflexivity|]). split; [exact Hfk|]. split.
  - intros Hu Hn. now rewrite Hfk, wrap_stored.
  - intros k' Hk' Hne. rewrite Hf. cbn [in_scope]. rewrite append_assoc.
    destruct (String.eqb_spec k' "__proto__") as [E|_]; [now elim Hne|].
    rewrite (getItem_setItem _ _ _ _ (p ++ "." ++ k') Hset).
    destruct (String.eqb_spec (p ++ "." ++ k) (p ++ "." ++ k')) as [E|_]; trivial.
    apply append_inj in E. injection E as E. now elim Hk'.
Qed.

Lemma store_then_load_witness :
  exists m,
    Preferences.load Preferences.create VUndefined
      (snd (Preferences.store Preferences.create (VStr "theme") sample_value
              (window sample_items 1000))) = Ok (VObj m)
    /\ obj_find m "theme" = Some sample_value
    /\ obj_find m "c" = Some (VNum 12).
Proof.
  destruct (store_then_load Preferences.create "_arc_" "theme" sample_value
              VUndefined (window sample_items 1000)
              (snd (Preferences.store Preferences.create (VStr "theme")
                      sample_value (window sample_items 1000)))
              eq_refl sample_items_wf ltac:(discriminate) eq_refl)
    as (m & Hl & _ & Hk & _ & Hother).
  exists m. split; [exact Hl|]. split; [rewrite Hk; reflexivity|].
  rewrite Hother by discriminate. reflexivity.
Defined.

(** X5.  [null] and [undefined] are not kept: after a successful
    [store(k, null)] or [store(k, undefined)] under a logical key [k] other
    than [__proto__], [load()] has the key [k], and it holds
    [undefined]. *)
Theorem store_null_then_load (el : Preferences.element) (p k : string)
  (v r : jsval) (w w' : World) :
  Preferences.dataPrefix el = VStr p -> wf_storage (ls w) ->
  k <> "__proto__" ->
  v = VNull \/ v = VUndefined ->
  Preferences.store el (VStr k) v w = (Resolved r, w') ->
  exists m,
    Preferences.load el VUndefined w' = Ok (VObj m)
    /\ Preferences.load_legacy el VUndefined w' = Ok (VObj m)
    /\ obj_find m k = Some VUndefined.
Proof.
  intros Hp Hwf Hne Hv Hst.
  apply store_resolved in Hst as [Hset _]. cbv zeta in Hset.
  rewrite Hp, string_prefix_text in Hset. cbn [ToString] in Hset.
  assert (Hwf' := setItem_wf _ _ _ _ Hwf Hset).
  destruct (load_loop_mapping (p ++ ".") None (ls w') Hwf')
    as (m & Hm & _ & Hk & _).
  exists (own m).
  unfold Preferences.load, Preferences.load_legacy,
    Preferences.load_object, Preferences.load_object_legacy.
  rewrite Hp, string_prefix_text. cbn [ToString]. cbn [scope_value] in Hm.
  rewrite Hm. do 2 (split; [reflexivity|]).
  rewrite Hk. cbn [in_scope]. rewrite append_assoc.
  destruct (String.eqb_spec k "__proto__") as [E|_]; [now elim Hne|].
  rewrite (getItem_setItem _ _ _ _ (p ++ "." ++ k) Hset), String.eqb_refl.
  destruct Hv as [-> | ->]; reflexivity.
Qed.

Lemma store_null_then_load_witness :
  exists m,
    Preferences.load Preferences.create VUndefined
      (snd (Preferences.store Preferences.create (VStr "gone") VNull
              (window [] 1000))) = Ok (VObj m)
    /\ obj_find m "gone" = Some VUndefined.
Proof.
  destruct (store_null_then_load Preferences.create "_arc_" "gone" VNull
              VUndefined (window [] 1000)
              (snd (Preferences.store Preferences.create (VStr "gone") VNull
                      (window [] 1000)))
              eq_refl (NoDup_nil _) ltac:(discriminate) (or_introl eq_refl)
              eq_refl)
    as (m & Hl & _ & Hk).
  exists m. split; [exact Hl | exact Hk].
Defined.

Lemma prefix_nil (k : string) : String.prefix "" k = true.
Proof. destruct k; reflexivity. Qed.

Lemma prefix_weaken (a b k : string) :
  String.prefix (a ++ b) k = true -> String.prefix a k = true.
Proof.
  intros H. apply prefix_split in H. rewrite H, append_assoc.
  apply prefix_append.
Qed.

Lemma load_loop_none (p : string) (scope : jsval) (q : nat)
  (b : list (string * string)) :
  forall a acc,
    (forall kv, In kv b -> String.prefix p (fst kv) = false) ->
    load_loop p scope {| items := (a ++ b)%list; quota := q |}
      (List.length b) (List.length a) acc = Ok acc.
Proof.
  induction b as [|x b IH]; intros a acc Hb; [reflexivity|].
  cbn [List.length load_loop]. rewrite key_middle, indexOf_eqb_zero.
  rewrite (Hb x (or_introl eq_refl)).
  replace (a ++ x :: b)%list with ((a ++ [x]) ++ b)%list
    by now rewrite <- List.app_assoc.
  replace (S (List.length a)) with (List.length (a ++ [x])%list)
    by (rewrite length_app; cbn; lia).
  apply IH. intros kv Hin. apply Hb. now right.
Qed.

Lemma load_loop_empty (p : string) (scope : jsval) (st : Storage) :
  (forall kv, In kv (items st) -> String.prefix p (fst kv) = false) ->
  load_loop p scope st (Storage_length st) 0 empty_object = Ok empty_object.
Proof.
  intros H. destruct st as [l q].
  exact (load_loop_none p scope q l [] empty_object H).
Qed.

Lemma cleared_none_under (bare lp : string) (st : Storage) :
  bare = "" \/ lp = bare ++ "." ->
  forall kv, In kv (filter (keeps bare) (items st)) ->
             String.prefix lp (fst kv) = false.
Proof.
  intros Hb kv Hin. apply filter_In in Hin as [_ Hk]. unfold keeps in Hk.
  apply negb_true_iff in Hk. destruct Hb as [-> | ->].
  - now rewrite prefix_nil in Hk.
  - destruct (String.prefix (bare ++ ".") (fst kv)) eqn:E; trivial.
    apply prefix_weaken in E. congruence.
Qed.

(** X6.  [clear] then [load]: whatever [dataPrefix] is and whatever scope is
    asked for, after [clear()] the legacy and the current [load] return the
    empty mapping. *)
Theorem clear_then_load (el : Preferences.element) (scope : jsval)
  (w : World) :
  wf_storage (ls w) ->
  exists w',
    Preferences.clear el w = Ok w'
    /\ Preferences.load el scope w' = Ok (VObj [])
    /\ Preferences.load_legacy el scope w' = Ok (VObj []).
Proof.
  intros Hwf. unfold Preferences.clear.
  rewrite (clear_loop_filter _ _ Hwf). eexists. split; [reflexivity|].
  unfold Preferences.load, Preferences.load_legacy,
    Preferences.load_object, Preferences.load_object_legacy. cbn [ls set_ls].
  set (bare := ToString (js_or (Preferences.dataPrefix el) (VStr ""))).
  split.
  - rewrite load_loop_empty; [reflexivity|].
    apply cleared_none_under. subst bare. unfold js_or.
    destruct (Preferences.dataPrefix el) as [| |b|n|s|l|l]; cbn [truthy ToString];
      try (now left); try (now right).
    + destruct b; [now right | now left].
    + destruct (n =? 0)%Z; [now left | now right].
    + destruct (String.eqb_spec s "") as [->|_]; [now left | now right].
  - rewrite load_loop_empty; [reflexivity|].
    apply cleared_none_under. now right.
Qed.

Lemma clear_then_load_witness :
  wf_storage (ls (window sample_items 1000))
  /\ exists w',
      Preferences.clear Preferences.create (window sample_items 1000) = Ok w'
      /\ Preferences.load Preferences.create VUndefined w' = Ok (VObj []).
Proof.
  split; [exact sample_items_wf|].
  destruct (clear_then_load Preferences.create VUndefined
              (window sample_items 1000) sample_items_wf)
    as (w' & Hc & Hl & _).
  exists w'. split; [exact Hc | exact Hl].
Defined.

(** X7.  [clear] on an element whose [dataPrefix] is not set (any falsy
    value: [undefined], [null], the empty string): every entry of the
    underlying store is removed, whoever wrote it. *)
Theorem clear_without_prefix (el : Preferences.element) (w : World) :
  truthy (Preferences.dataPrefix el) = false -> wf_storage (ls w) ->
  exists w', Preferences.clear el w = Ok w' /\ items (ls w') = [].
Proof.
  intros Hf Hwf. unfold Preferences.clear.
  rewrite (clear_loop_filter _ _ Hwf). eexists. split; [reflexivity|].
  cbn [ls set_ls items]. unfold js_or. rewrite Hf. cbn [ToString].
  induction (items (ls w)) as [|kv l IH]; [reflexivity|].
  cbn [filter]. unfold keeps at 1. now rewrite prefix_nil.
Qed.

Lemma clear_without_prefix_witness :
  exists w',
    Preferences.clear {| Preferences.dataPrefix := VUndefined |}
      (window sample_items 1000) = Ok w'
    /\ items (ls w') = [].
Proof.
  exact (clear_without_prefix {| Preferences.dataPrefix := VUndefined |}
           (window sample_items 1000) eq_refl sample_items_wf).
Defined.

Lemma load_loop_throw (p : string) (scope : jsval) (q : nat)
  (b : list (string * string)) :
  has_no_indexOf scope = true ->
  forall a acc,
    (exists kv, In kv b /\ String.prefix p (fst kv) = true) ->
    load_loop p scope {| items := (a ++ b)%list; quota := q |}
      (List.length b) (List.length a) acc = Throw TypeError.
Proof.
  intros Hs.
  assert (Hout : forall k, out_of_scope scope k = Throw TypeError).
  { intros k. unfold has_no_indexOf in Hs. apply andb_prop in Hs as [Ht Hm].
    unfold out_of_scope. rewrite Ht. cbn [negb].
    destruct scope; try reflexivity; discriminate. }
  induction b as [|x b IH]; intros a acc (kv & Hin & Hp); [now elim Hin|].
  cbn [List.length load_loop]. rewrite key_middle, indexOf_eqb_zero.
  destruct (String.prefix p (fst x)) eqn:Hx; [now rewrite Hout|].
  replace (a ++ x :: b)%list with ((a ++ [x]) ++ b)%list
    by now rewrite <- List.app_assoc.
  replace (S (List.length a)) with (List.length (a ++ [x])%list)
    by (rewrite length_app; cbn; lia).
  apply IH. exists kv. split; trivial.
  destruct Hin as [->|Hin]; [congruence | exact Hin].
Qed.

Lemma assoc_get_some_in (l : list (string * string)) (k : string) :
  assoc_get l k <> None -> exists kv, In kv l /\ fst kv = k.
Proof.
  induction l as [|[k0 v0] l IH]; cbn [assoc_get]; intros H; [now elim H|].
  destruct (String.eqb_spec k0 k) as [->|_].
  - exists (k, v0). split; [now left | reflexivity].
  - destruct (IH H) as (kv & Hin & E). exists kv. split; [now right | exact E].
Qed.

(** X8.  A scope that is neither absent, an array nor a string (a number,
    [true], a plain object): [load] fails with a [TypeError] as soon as one
    key is stored under the prefix, and returns the empty mapping when none
    is. *)
Theorem load_scope_without_indexOf (el : Preferences.element) (p : string)
  (scope : jsval) (w : World) :
  Preferences.dataPrefix el = VStr p -> has_no_indexOf scope = true ->
  ((exists k, getItem (ls w) (p ++ "." ++ k) <> None) ->
   Preferences.load el scope w = Throw TypeError
   /\ Preferences.load_legacy el scope w = Throw TypeError)
  /\ ((forall kv, In kv (items (ls w)) ->
                  String.prefix (p ++ ".") (fst kv) = false) ->
      Preferences.load el scope w = Ok (VObj [])
      /\ Preferences.load_legacy el scope w = Ok (VObj [])).
Proof.
  intros Hp Hs.
  unfold Preferences.load, Preferences.load_legacy,
    Preferences.load_object, Preferences.load_object_legacy.
  rewrite Hp, string_prefix_text. cbn [ToString]. split.
  - intros (k & Hk). apply assoc_get_some_in in Hk as (kv & Hin & E).
    assert (H : load_loop (p ++ ".") scope (ls w) (Storage_length (ls w)) 0
                  empty_object
                = Throw TypeError).
    { destruct (ls w) as [l q].
      apply (load_loop_throw _ _ q l Hs [] empty_object).
      exists kv. split; trivial. rewrite E, <- append_assoc.
      apply prefix_append. }
    rewrite H. split; reflexivity.
  - intros Hnone. rewrite (load_loop_empty _ _ _ Hnone). split; reflexivity.
Qed.

Lemma load_scope_without_indexOf_witness :
  Preferences.load Preferences.create (VNum 5) (window sample_items 1000)
  = Throw TypeError
  /\ Preferences.load Preferences.create (VNum 5) (window [] 1000)
     = Ok (VObj []).
Proof.
  split.
  - apply (load_scope_without_indexOf Preferences.create "_arc_" (VNum 5)
             (window sample_items 1000) eq_refl eq_refl).
    exists "a". discriminate.
  - apply (load_scope_without_indexOf Preferences.create "_arc_" (VNum 5)
             (window [] 1000) eq_refl eq_refl).
    intros kv [].
Defined.

(** X9.  A [dataPrefix] of [null]: [store] writes under ["." + k] (it reads
    [this.dataPrefix || '']); for a logical key [k] other than [__proto__]
    the legacy [load] scans ["."] and finds the entry, mapping [k] to what
    [unwrap] makes of the stored text, and the current [load] scans
    ["null."] (its default applies to [undefined] only) and does not. *)
Theorem null_prefix_store_then_load (el : Preferences.element) (k : string)
  (v r : jsval) (w w' : World) :
  Preferences.dataPrefix el = VNull -> wf_storage (ls w) ->
  k <> "__proto__" ->
  getItem (ls w) ("null." ++ k) = None ->
  Preferences.store el (VStr k) v w = (Resolved r, w') ->
  getItem (ls w') ("." ++ k) = Some (ToString (wrap v))
  /\ (exists m, Preferences.load_legacy el VUndefined w' = Ok (VObj m)
                /\ obj_find m k = Some (unwrap (VStr (stored v))))
  /\ (exists m, Preferences.load el VUndefined w' = Ok (VObj m)
                /\ obj_find m k = None).
Proof.
  intros Hp Hwf Hne Hfree Hst.
  apply store_resolved in Hst as [Hset _]. cbv zeta in Hset.
  rewrite Hp in Hset. cbn [js_or truthy ToString append] in Hset.
  assert (Hwf' := setItem_wf _ _ _ _ Hwf Hset).
  assert (Hb : (k =? "__proto__") = false)
    by (destruct (String.eqb_spec k "__proto__"); [now elim Hne | reflexivity]).
  split; [|split].
  - rewrite (getItem_setItem _ _ _ _ ("." ++ k) Hset). cbn [append].
    now rewrite String.eqb_refl.
  - destruct (load_loop_mapping "." None (ls w') Hwf')
      as (m & Hm & _ & Hk & _).
    exists (own m).
    unfold Preferences.load_legacy, Preferences.load_object_legacy.
    rewrite Hp.
    cbn [js_or truthy ToString append]. cbn [scope_value] in Hm. rewrite Hm.
    split; [reflexivity|]. rewrite Hk, Hb. cbn [in_scope].
    rewrite (getItem_setItem _ _ _ _ ("." ++ k) Hset). cbn [append].
    rewrite String.eqb_refl. reflexivity.
  - destruct (load_loop_mapping "null." None (ls w') Hwf')
      as (m & Hm & _ & Hk & _).
    exists (own m). unfold Preferences.load, Preferences.load_object.
    rewrite Hp.
    cbn [ToString append]. cbn [scope_value] in Hm. rewrite Hm.
    split; [reflexivity|]. rewrite Hk, Hb. cbn [in_scope].
    rewrite (getItem_setItem _ _ _ _ ("null." ++ k) Hset). cbn [append String.eqb].
    cbn [Ascii.eqb Bool.eqb]. cbn [append] in Hfree. now rewrite Hfree.
Qed.

Lemma null_prefix_store_then_load_witness :
  let el := {| Preferences.dataPrefix := VNull |} in
  let w' := snd (Preferences.store el (VStr "k") (VNum 7) (window [] 1000)) in
  getItem (ls w') ".k" = Some (stored (VNum 7))
  /\ Preferences.load_legacy el VUndefined w' = Ok (VObj [("k", VNum 7)])
  /\ Preferences.load el VUndefined w' = Ok (VObj []).
Proof.
  cbv zeta.
  destruct (null_prefix_store_then_load {| Preferences.dataPrefix := VNull |}
              "k" (VNum 7) VUndefined (window [] 1000)
              (snd (Preferences.store {| Preferences.dataPrefix := VNull |}
                      (VStr "k") (VNum 7) (window [] 1000)))
              eq_refl (NoDup_nil _) ltac:(discriminate) eq_refl eq_refl)
    as (H & _ & _).
  split; [exact H|]. split; reflexivity.
Defined.

(** X10.  The default prefixes do not overlap: [clear()] of a preferences
    element with the default ['_arc_'] leaves every key of the default
    workspace prefix in place, and [clear()] of a current workspace element
    with the default ['_arcworkspace'] leaves every preferences key in
    place. *)
Theorem default_prefixes_disjoint (w : World) :
  wf_storage (ls w) ->
  exists w1 w2,
    Preferences.clear Preferences.create w = Ok w1
    /\ Workspace.clear Workspace.create w = Ok w2
    /\ forall k,
        getItem (ls w1) ("_arcworkspace." ++ k)
        = getItem (ls w) ("_arcworkspace." ++ k)
        /\ getItem (ls w2) ("_arc_." ++ k) = getItem (ls w) ("_arc_." ++ k).
Proof.
  intros Hwf. unfold Preferences.clear, Workspace.clear.
  cbn [Preferences.create Preferences.dataPrefix Workspace.create
       Workspace.dataPrefix js_or truthy ToString String.eqb negb].
  rewrite !(clear_loop_filter _ _ Hwf). do 2 eexists.
  split; [reflexivity|]. split; [reflexivity|].
  intros k. cbn [ls set_ls]. rewrite !getItem_cleared. split; reflexivity.
Qed.

Lemma default_prefixes_disjoint_witness :
  wf_storage (ls (window sample_items 1000))
  /\ exists w2,
      Workspace.clear Workspace.create (window sample_items 1000) = Ok w2
      /\ getItem (ls w2) "_arc_.a" = Some (stored (VStr "a")).
Proof.
  split; [exact sample_items_wf|].
  destruct (default_prefixes_disjoint (window sample_items 1000)
              sample_items_wf) as (w1 & w2 & _ & Hc & Hk).
  exists w2. split; [exact Hc|].
  destruct (Hk "a") as [_ H]. cbn [append] in H. rewrite H. reflexivity.
Defined.

(* ================================================================= *)
(** * The event handlers of the preferences store *)

(** X11.  A write request without a name: for a cancelable request that
    nobody has handled yet and whose [name] is falsy, [_changeHandler]
    prevents the default, stops the propagation, puts a promise rejected
    with the error ["Name is not set."] on the event, and neither writes
    nor notifies. *)
Theorem change_request_without_name (el : Preferences.element)
  (e : CustomEvent) (w : World) :
  cancelable e = true -> defaultPrevented e = false ->
  truthy (name (detail e)) = false ->
  exists e',
    Preferences._changeHandler el e w = (e', w)
    /\ result (detail e') = Some (Rejected (Error "Name is not set."))
    /\ defaultPrevented e' = true
    /\ propagationStopped e' = true.
Proof.
  intros Hc Hp Hn. unfold Preferences._changeHandler.
  rewrite Hc, Hp. cbn [negb orb].
  cbn [stopPropagation preventDefault detail]. rewrite Hn. cbn [negb].
  eexists. split; [reflexivity|]. cbn. now rewrite Hc.
Qed.

Lemma change_request_without_name_witness :
  exists e',
    Preferences._changeHandler Preferences.create
      (write_request (VStr "") (VBool true) true false) (window [] 1000)
    = (e', window [] 1000)
    /\ result (detail e') = Some (Rejected (Error "Name is not set.")).
Proof.
  destruct (change_request_without_name Preferences.create
              (write_request (VStr "") (VBool true) true false)
              (window [] 1000) eq_refl eq_refl eq_refl)
    as (e' & He & Hr & _).
  exists e'. split; [exact He | exact Hr].
Defined.

(** X12.  A handled write request always gets a settled answer: for a
    cancelable request that nobody has handled yet and whose [name] is
    truthy, [_changeHandler] prevents the default, stops the propagation
    and either the write succeeded, the event carries a resolved promise,
    the storage key holds the encoded value and exactly one notification
    with the request's name and value was dispatched; or the write failed,
    the event carries the rejection, and storage and notifications are as
    before. *)
Theorem change_request_settled (el : Preferences.element) (e : CustomEvent)
  (w : World) :
  cancelable e = true -> defaultPrevented e = false ->
  truthy (name (detail e)) = true ->
  let sKey := ToString (js_or (Preferences.dataPrefix el) (VStr ""))
              ++ "." ++ ToString (name (detail e)) in
  exists e' w',
    Preferences._changeHandler el e w = (e', w')
    /\ defaultPrevented e' = true
    /\ propagationStopped e' = true
    /\ ((result (detail e') = Some (Resolved VUndefined)
         /\ getItem (ls w') sKey = Some (ToString (wrap (value (detail e))))
         /\ dispatched w'
            = (dispatched w ++ [(name (detail e), value (detail e))])%list)
        \/ (result (detail e') = Some (Rejected QuotaExceededError)
            /\ ls w' = ls w
            /\ dispatched w' = dispatched w)).
Proof.
  intros Hc Hp Hn sKey. unfold Preferences._changeHandler.
  rewrite Hc, Hp. cbn [negb orb].
  cbn [stopPropagation preventDefault detail]. rewrite Hn. cbn [negb].
  unfold Preferences.store, call_setItem. fold sKey.
  destruct (setItem (ls w) sKey (ToString (wrap (value (detail e)))))
    as [st|] eqn:Hset; do 2 eexists; (split; [reflexivity|]);
    cbn; rewrite Hc; (split; [reflexivity|]); (split; [reflexivity|]).
  - left. split; [reflexivity|]. split; [|reflexivity].
    rewrite (getItem_setItem _ _ _ _ sKey Hset). now rewrite String.eqb_refl.
  - right. repeat split.
Qed.

Lemma change_request_settled_witness :
  exists e' w',
    Preferences._changeHandler Preferences.create
      (write_request (VStr "test-key-event") (VStr "abc") true false)
      (window [] 1000) = (e', w')
    /\ defaultPrevented e' = true
    /\ result (detail e') = Some (Resolved VUndefined).
Proof.
  destruct (change_request_settled Preferences.create
              (write_request (VStr "test-key-event") (VStr "abc") true false)
              (window [] 1000) eq_refl eq_refl eq_refl)
    as (e' & w' & He & Hd & _ & _).
  exists e', w'. split; [exact He|]. split; [exact Hd|].
  injection He as <- _. reflexivity.
Defined.

(** X13.  A read request: for a request that nobody has handled yet, a
    string prefix and a scope that is absent or a list of names, the read
    handlers of the legacy and of the current element stop the propagation
    and put on the event a promise resolved with the object that [load]
    returns for the scope: apart from the key [__proto__], which it never
    has, its keys are the logical keys in scope that are stored under the
    prefix, with the decoded stored texts.  The handlers do not look at
    [cancelable]: a
    request that is not cancelable is answered all the same, and its
    [defaultPrevented] stays [false]. *)
Theorem read_request_answered (el : Preferences.element) (p : string)
  (scope : option (list string)) (e : CustomEvent) (w : World) :
  Preferences.dataPrefix el = VStr p -> wf_storage (ls w) ->
  defaultPrevented e = false ->
  settings (detail e) = scope_value scope ->
  exists e' m,
    PreferencesBridge._readHandler el e w = e'
    /\ PreferencesBridge._readHandler_legacy el e w = (e', None)
    /\ result (detail e') = Some (Resolved (VObj m))
    /\ (forall k, k <> "__proto__" ->
                  obj_find m k
                  = if in_scope scope k
                    then decoded (getItem (ls w) (p ++ "." ++ k))
                    else None)
    /\ obj_find m "__proto__" = None
    /\ propagationStopped e' = true
    /\ defaultPrevented e' = cancelable e.
Proof.
  intros Hp Hwf Hd Hs.
  destruct (load_loop_mapping (p ++ ".") scope (ls w) Hwf)
    as (m & Hm & _ & Hk & _).
  unfold PreferencesBridge._readHandler, PreferencesBridge._readHandler_legacy.
  rewrite Hd. cbn [stopPropagation preventDefault detail].
  unfold Preferences.load, Preferences.load_legacy,
    Preferences.load_object, Preferences.load_object_legacy.
  rewrite Hp, string_prefix_text, Hs. cbn [ToString]. rewrite Hm.
  do 2 eexists. split; [reflexivity|]. split; [reflexivity|].
  cbn. rewrite Hd. split; [reflexivity|]. split; [|split].
  - intros k Hne. rewrite Hk, append_assoc.
    destruct (String.eqb_spec k "__proto__") as [E|_]; [now elim Hne|].
    reflexivity.
  - now rewrite Hk.
  - split; [reflexivity|]. now destruct (cancelable e).
Qed.

Lemma read_request_answered_witness :
  exists e' m,
    PreferencesBridge._readHandler Preferences.create
      (read_request (VArr [VStr "c"; VStr "d"]) false false)
      (window sample_items 1000) = e'
    /\ result (detail e') = Some (Resolved (VObj m))
    /\ obj_find m "a" = None
    /\ obj_find m "c" = Some (VNum 12)
    /\ defaultPrevented e' = false.
Proof.
  destruct (read_request_answered Preferences.create "_arc_"
              (Some ["c"; "d"])
              (read_request (VArr [VStr "c"; VStr "d"]) false false)
              (window sample_items 1000) eq_refl sample_items_wf eq_refl
              eq_refl)
    as (e' & m & He & _ & Hr & Hk & _ & _ & Hd).
  exists e', m. split; [exact He|]. split; [exact Hr|].
  rewrite !Hk by discriminate. repeat split; try reflexivity. exact Hd.
Defined.

(** The remaining tests of test/arc-local-store-preferences.test.js. *)

Example test_reads_data_via_event :
  result (detail (PreferencesBridge._readHandler Preferences.create
                    (read_request VUndefined true false)
                    (window sample_items 1000)))
  = Some (Resolved (VObj [("a", VStr "a"); ("b", VBool true);
                          ("c", VNum 12); ("d", VNull)])).
Proof. reflexivity. Qed.

Example test_ignores_cancelled_events :
  result (detail (PreferencesBridge._readHandler Preferences.create
                    (read_request VUndefined true true)
                    (window sample_items 1000))) = None.
Proof. reflexivity. Qed.

Example test_storage_area_not_local :
  dispatched (PreferencesBridge._winSettingsHandler
                {| storageArea := VStr "session"; storage_key := VUndefined;
                   newValue := VUndefined |} (window sample_items 1000))
  = [].
Proof. reflexivity. Qed.

Example test_storage_area_local :
  dispatched (PreferencesBridge._winSettingsHandler
                {| storageArea := VStr "local"; storage_key := VStr "test-key";
                   newValue := VStr "test-value" |} (window sample_items 1000))
  = [(VStr "test-key", VStr "test-value")].
Proof. reflexivity. Qed.

(* ================================================================= *)
(** * Further properties of the workspace store *)

(** X14.  [clear] of the current workspace element: with a string
    [dataPrefix] it removes every key that starts with it and no other
    key, and [load()] afterwards returns the empty mapping. *)
Theorem workspace_clear_then_load (el : Workspace.element) (p : string)
  (w : World) :
  Workspace.dataPrefix el = VStr p -> wf_storage (ls w) ->
  exists w',
    Workspace.clear el w = Ok w'
    /\ (forall k, String.prefix p k = true -> getItem (ls w') k = None)
    /\ (forall k, String.prefix p k = false ->
                  getItem (ls w') k = getItem (ls w) k)
    /\ Workspace.load el w' = Ok (VObj []).
Proof.
  intros Hp Hwf. unfold Workspace.clear, Workspace.load, Workspace.load_object.
  rewrite Hp. cbn [ToString].
  rewrite (clear_loop_filter p _ Hwf). eexists. split; [reflexivity|].
  cbn [ls set_ls]. split; [|split].
  - intros k Hk. now rewrite getItem_cleared, Hk.
  - intros k Hk. now rewrite getItem_cleared, Hk.
  - rewrite load_loop_empty; [reflexivity|].
    apply cleared_none_under. now right.
Qed.

Lemma workspace_clear_then_load_witness :
  exists w',
    Workspace.clear Workspace.create
      (window (("_arcworkspace.x", stored (VNum 4)) :: sample_items) 1000)
    = Ok w'
    /\ getItem (ls w') "_arcworkspace.x" = None
    /\ getItem (ls w') "_arc_.a" = Some (stored (VStr "a"))
    /\ Workspace.load Workspace.create w' = Ok (VObj []).
Proof.
  assert (Hwf : wf_storage
                  (ls (window (("_arcworkspace.x", stored (VNum 4))
                                 :: sample_items) 1000))).
  { unfold wf_storage. cbn.
    repeat (constructor; [cbn; intuition discriminate|]). constructor. }
  destruct (workspace_clear_then_load Workspace.create "_arcworkspace" _
              eq_refl Hwf) as (w' & Hc & Hgone & Hkept & Hl).
  exists w'. split; [exact Hc|]. split; [|split].
  - apply Hgone. reflexivity.
  - rewrite Hkept; reflexivity.
  - exact Hl.
Defined.

(** X15.  [clear] of the legacy workspace element, in general: it removes
    exactly the keys that start with the text ["undefined"], so none of the
    keys ["." + field] that the element's own [_store] writes is ever
    removed by it. *)
Theorem legacy_clear_keeps_own_data (el : Workspace.element) (w : World) :
  Workspace.dataPrefix el = VUndefined -> wf_storage (ls w) ->
  exists w',
    Workspace.clear el w = Ok w'
    /\ (forall field, getItem (ls w') ("." ++ field)
                      = getItem (ls w) ("." ++ field))
    /\ (forall k, String.prefix "undefined" k = true ->
                  getItem (ls w') k = None)
    /\ (forall k, String.prefix "undefined" k = false ->
                  getItem (ls w') k = getItem (ls w) k).
Proof.
  intros Hdp Hwf. unfold Workspace.clear. rewrite Hdp. cbn [ToString].
  rewrite (clear_loop_filter _ _ Hwf). eexists. split; [reflexivity|].
  cbn [ls set_ls]. repeat split; intros k; rewrite getItem_cleared;
    [reflexivity | intros -> .. ]; reflexivity.
Qed.

Lemma legacy_clear_keeps_own_data_witness :
  exists w',
    Workspace.clear unset_workspace (window workspace_items 1000) = Ok w'
    /\ getItem (ls w') ".c" = Some (stored (VNum 3)).
Proof.
  destruct (legacy_clear_keeps_own_data unset_workspace
              (window workspace_items 1000) eq_refl workspace_items_wf)
    as (w' & Hc & Hown & _).
  exists w'. split; [exact Hc|].
  specialize (Hown "c"). cbn [append] in Hown. rewrite Hown. reflexivity.
Defined.

(** ** The debounce, in general *)

Lemma store_advance_early (v : jsval) (d : nat) (el : Workspace.element)
  (w : World) :
  owns_timers (el, w) -> d < 500 ->
  Workspace.advance d (Workspace.store v (el, w))
  = ({| Workspace.prefix := Workspace.prefix el;
        Workspace.dataPrefix := Workspace.dataPrefix el;
        Workspace.__pendingWorkspace := v;
        Workspace.__workspaceWriteDebounce := Some (next_timer w) |},
     {| ls := ls w; setItem_calls := setItem_calls w;
        dispatched := dispatched w; now := now w + d;
        timers := [(next_timer w, now w + 500)];
        next_timer := Pos.succ (next_timer w) |}).
Proof.
  intros Hown Hd. rewrite (store_spec v el w Hown).
  rewrite (advance_early d _ _ (next_timer w) (now w + 500));
    [reflexivity | reflexivity | cbn [now]; lia].
Qed.

Lemma store_advance_due (v : jsval) (d : nat) (el : Workspace.element)
  (w : World) :
  owns_timers (el, w) -> 500 <= d ->
  Workspace.advance d (Workspace.store v (el, w))
  = ({| Workspace.prefix := Workspace.prefix el;
        Workspace.dataPrefix := Workspace.dataPrefix el;
        Workspace.__pendingWorkspace := VUndefined;
        Workspace.__workspaceWriteDebounce := None |},
     {| ls := write_all (field_writes el v) (ls w);
        setItem_calls := (setItem_calls w ++ field_writes el v)%list;
        dispatched := dispatched w; now := now w + d;
        timers := [];
        next_timer := Pos.succ (next_timer w) |}).
Proof.
  intros Hown Hd. rewrite (store_spec v el w Hown).
  rewrite (advance_due d _ _ (next_timer w) (now w + 500));
    [| reflexivity | cbn [now]; lia].
  unfold Workspace.flush, Workspace.set_debounce, Workspace.set_pending.
  cbn [Workspace.__pendingWorkspace Workspace.prefix Workspace.dataPrefix
       Workspace.__workspaceWriteDebounce].
  rewrite _store_spec. reflexivity.
Qed.

(** X16.  [store] writes nothing itself: less than 500 ms after a
    [store(v)] the underlying store has received no [setItem] call and [v]
    is the pending workspace; once 500 ms have passed the [setItem] calls
    for the fields of [v] have been made, in order, and the pending
    workspace and the timer handle are cleared. *)
Theorem store_is_deferred (v : jsval) (d : nat)
  (s : Workspace.element * World) :
  owns_timers s ->
  let s' := Workspace.advance d (Workspace.store v s) in
  (d < 500 ->
   ls (snd s') = ls (snd s)
   /\ setItem_calls (snd s') = setItem_calls (snd s)
   /\ Workspace.__pendingWorkspace (fst s') = v
   /\ timers (snd s') = [(next_timer (snd s), now (snd s) + 500)])
  /\ (500 <= d ->
      ls (snd s') = write_all (field_writes (fst s) v) (ls (snd s))
      /\ setItem_calls (snd s')
         = (setItem_calls (snd s) ++ field_writes (fst s) v)%list
      /\ Workspace.__pendingWorkspace (fst s') = VUndefined
      /\ Workspace.__workspaceWriteDebounce (fst s') = None
      /\ timers (snd s') = []).
Proof.
  destruct s as [el w]. intros Hown. cbv zeta. split; intros Hd.
  - rewrite (store_advance_early v d el w Hown Hd). repeat split.
  - rewrite (store_advance_due v d el w Hown Hd). repeat split.
Qed.

Lemma store_is_deferred_witness :
  let s := (Workspace.create, window [] 1000) in
  setItem_calls (snd (Workspace.advance 499 (Workspace.store workspace_one s)))
  = []
  /\ setItem_calls (snd (Workspace.advance 500 (Workspace.store workspace_one s)))
     = [("_arcworkspace.a", stored (VNum 1));
        ("_arcworkspace.b", stored (VStr "x"))].
Proof.
  cbv zeta. split.
  - destruct (store_is_deferred workspace_one 499
                (Workspace.create, window [] 1000) (fresh_owns_timers _ _ _))
      as [H _].
    destruct (H ltac:(lia)) as (_ & Hc & _). exact Hc.
  - destruct (store_is_deferred workspace_one 500
                (Workspace.create, window [] 1000) (fresh_owns_timers _ _ _))
      as [_ H].
    destruct (H ltac:(lia)) as (_ & Hc & _). rewrite Hc. reflexivity.
Defined.

Lemma burst_quiet (calls : list (jsval * nat)) :
  forall el w,
    owns_timers (el, w) -> Forall (fun c => snd c < 500) calls ->
    exists el' w',
      burst calls (el, w) = (el', w')
      /\ owns_timers (el', w')
      /\ Workspace.dataPrefix el' = Workspace.dataPrefix el
      /\ ls w' = ls w
      /\ setItem_calls w' = setItem_calls w.
Proof.
  induction calls as [|[v d] calls IH]; intros el w Hown Hall.
  - exists el, w. repeat split; trivial.
  - inversion Hall as [|? ? Hd Hrest]; subst. cbn [snd] in Hd.
    unfold burst. cbn [fold_left fst snd].
    rewrite (store_advance_early v d el w Hown Hd).
    match goal with |- context [fold_left _ calls (?e, ?x)] =>
      destruct (IH e x) as (el' & w' & Hb & Ho & Hp & Hl & Hc); trivial
    end.
    + intros tm [<-|[]]. reflexivity.
    + exists el', w'. unfold burst in Hb. rewrite Hb. repeat split; trivial.
Qed.

(** X17.  A burst of any length: when [store] is called any number of
    times, each call less than 500 ms after the one before, nothing is
    written while the burst lasts, and 500 ms after the last call the
    [setItem] calls made are those for the fields of the last value and no
    others. *)
Theorem burst_keeps_last_value (calls : list (jsval * nat)) (v : jsval)
  (d : nat) (s : Workspace.element * World) :
  owns_timers s -> Forall (fun c => snd c < 500) calls -> 500 <= d ->
  (ls (snd (burst calls s)) = ls (snd s)
   /\ setItem_calls (snd (burst calls s)) = setItem_calls (snd s))
  /\ let s' := Workspace.advance d (Workspace.store v (burst calls s)) in
     ls (snd s') = write_all (field_writes (fst s) v) (ls (snd s))
     /\ setItem_calls (snd s')
        = (setItem_calls (snd s) ++ field_writes (fst s) v)%list
     /\ Workspace.__pendingWorkspace (fst s') = VUndefined
     /\ timers (snd s') = [].
Proof.
  destruct s as [el w]. intros Hown Hall Hd.
  destruct (burst_quiet calls el w Hown Hall)
    as (el' & w' & Hb & Ho & Hp & Hl & Hc).
  rewrite Hb. cbn [fst snd]. split; [now split|]. cbv zeta.
  rewrite (store_advance_due v d el' w' Ho Hd). cbn [fst snd ls setItem_calls
    timers Workspace.__pendingWorkspace].
  unfold field_writes. rewrite Hp, Hl, Hc. repeat split.
Qed.

Lemma burst_keeps_last_value_witness :
  let s := (Workspace.create, window [] 1000) in
  let calls := [(workspace_one, 100); (VBool false, 499); (workspace_one, 0)] in
  setItem_calls
    (snd (Workspace.advance 500 (Workspace.store workspace_two (burst calls s))))
  = [("_arcworkspace.c", stored (VArr [VNum 1]))].
Proof.
  cbv zeta.
  destruct (burst_keeps_last_value
              [(workspace_one, 100); (VBool false, 499); (workspace_one, 0)]
              workspace_two 500 (Workspace.create, window [] 1000)
              (fresh_owns_timers _ _ _)) as (_ & _ & Hc & _).
  - repeat constructor; cbn; lia.
  - lia.
  - rewrite Hc. reflexivity.
Defined.

(** ** The timer invariant *)

Lemma single_timer_owns (s : Workspace.element * World) :
  single_timer s -> owns_timers s.
Proof.
  unfold single_timer, owns_timers.
  destruct (Workspace.__workspaceWriteDebounce (fst s)) as [h|].
  - intros (due & -> & _) tm [<-|[]]. reflexivity.
  - intros [-> _] tm [].
Qed.

Lemma store_single_timer (v : jsval) (s : Workspace.element * World) :
  single_timer s -> single_timer (Workspace.store v s).
Proof.
  intros H. apply single_timer_owns in H. destruct s as [el w].
  rewrite (store_spec v el w H). unfold single_timer. cbn.
  eexists. split; [reflexivity | lia].
Qed.

Lemma advance_single_timer (d : nat) (s : Workspace.element * World) :
  single_timer s -> single_timer (Workspace.advance d s).
Proof.
  destruct s as [el w]. unfold single_timer at 1. cbn [fst snd].
  destruct (Workspace.__workspaceWriteDebounce el) as [h|] eqn:Hh.
  - intros (due & Ht & Hnow).
    destruct (Nat.le_gt_cases due (now w + d)) as [Hdue|Hearly].
    + rewrite (advance_due d el w h due Ht Hdue).
      unfold Workspace.flush, Workspace.set_debounce, Workspace.set_pending.
      rewrite _store_spec. unfold single_timer. cbn. now split.
    + rewrite (advance_early d el w h due Ht Hearly).
      unfold single_timer. cbn [fst snd]. rewrite Hh.
      exists due. split; [reflexivity | cbn; lia].
  - intros [Ht Hp]. unfold Workspace.advance. rewrite Ht. cbn [filter fold_left].
    unfold single_timer. cbn [fst snd]. rewrite Hh. now split.
Qed.

(** X18.  The timer invariant: starting from an element with no timer and
    no pending workspace, after any sequence of [store] calls, pauses and
    [workspace-state-store] events there is at most one pending timer; it
    is the one whose handle the element holds and it is not yet due; and
    when there is none, no workspace is left pending. *)
Theorem single_timer_invariant (l : list action)
  (s : Workspace.element * World) :
  single_timer s -> single_timer (run l s).
Proof.
  revert s. induction l as [|a l IH]; intros s Hs; [exact Hs|].
  unfold run. cbn [fold_left]. apply IH. destruct a as [v|d|e]; cbn [step].
  - now apply store_single_timer.
  - now apply advance_single_timer.
  - unfold Workspace._changeHandler.
    destruct (negb (cancelable e) || defaultPrevented e); [exact Hs|].
    destruct (negb (truthy _)); cbn [snd]; [exact Hs|].
    now apply store_single_timer.
Qed.

Lemma single_timer_invariant_witness :
  single_timer (Workspace.create, window [] 1000)
  /\ single_timer
       (run [Store workspace_one; Advance 200;
             Request (write_request VUndefined workspace_two true false);
             Advance 499; Store (VBool false)]
          (Workspace.create, window [] 1000)).
Proof.
  assert (H : single_timer (Workspace.create, window [] 1000))
    by (split; reflexivity).
  split; [exact H|].
  exact (single_timer_invariant _ _ H).
Defined.

(** ** [store], the flush and [load] *)

Lemma distinct_NoDup (l : list string) : distinct l = true -> NoDup l.
Proof.
  induction l as [|k l IH]; intros H; [constructor|].
  cbn [distinct] in H. apply andb_prop in H as [Hk Hl].
  constructor; [|now apply IH].
  intros Hin. apply negb_true_iff in Hk.
  rewrite <- not_true_iff_false in Hk. apply Hk.
  apply existsb_exists. exists k. split; trivial. apply String.eqb_refl.
Qed.

Lemma obj_get_in (l : list (string * jsval)) (f : string) (x : jsval) :
  NoDup (map fst l) -> In (f, x) l -> obj_get l f = x.
Proof.
  induction l as [|[k y] l IH]; intros Hnd Hin; [now elim Hin|].
  cbn [map fst] in Hnd. inversion Hnd as [|? ? Hk Hl]; subst.
  cbn [obj_get]. destruct Hin as [[= -> ->]|Hin].
  - now rewrite String.eqb_refl.
  - destruct (String.eqb_spec k f) as [->|_]; [|now apply IH].
    elim Hk. change f with (fst (f, x)). now apply in_map.
Qed.

Lemma write_all_spec (calls : list (string * string)) :
  forall st,
    NoDup (map fst calls) -> all_succeed calls st = true -> wf_storage st ->
    wf_storage (write_all calls st)
    /\ (forall kv, In kv calls ->
                   getItem (write_all calls st) (fst kv) = Some (snd kv))
    /\ (forall k, ~ In k (map fst calls) ->
                  getItem (write_all calls st) k = getItem st k).
Proof.
  induction calls as [|[k v] calls IH]; intros st Hnd Hall Hwf.
  - repeat split; trivial. intros kv [].
  - cbn [map fst] in Hnd. inversion Hnd as [|? ? Hk Hrest]; subst.
    cbn [all_succeed fst snd] in Hall. unfold write_all. cbn [fold_left fst snd].
    destruct (setItem st k v) as [st1|] eqn:Hset; [|discriminate].
    destruct (IH st1 Hrest Hall (setItem_wf _ _ _ _ Hwf Hset))
      as (Hwf' & Hin' & Hout').
    split; [exact Hwf'|]. split.
    + intros kv [<-|Hin]; [|now apply Hin'].
      cbn [fst snd]. unfold write_all in Hout'. rewrite (Hout' k Hk).
      rewrite (getItem_setItem _ _ _ _ k Hset). now rewrite String.eqb_refl.
    + intros k' Hk'. cbn [map fst In] in Hk'.
      unfold write_all in Hout'. rewrite Hout' by tauto.
      rewrite (getItem_setItem _ _ _ _ k' Hset).
      destruct (String.eqb_spec k k') as [->|_]; [|reflexivity].
      elim Hk'. now left.
Qed.

Lemma field_writes_object (el : Workspace.element)
  (l : list (string * jsval)) :
  field_writes el (VObj l)
  = map (fun field =>
           (ToString (js_or (Workspace.dataPrefix el) (VStr "")) ++ "." ++ field,
            ToString (wrap (obj_get l field))))
        (map fst l).
Proof. reflexivity. Qed.

Lemma field_keys_NoDup (bare : string) (g : string -> string)
  (keys : list string) :
  NoDup keys ->
  NoDup (map fst (map (fun field => (bare ++ "." ++ field, g field)) keys)).
Proof.
  intros H. rewrite map_map. cbn [fst].
  induction H as [|k keys Hk Hnd IH]; cbn [map]; constructor; trivial.
  intros Hin. apply in_map_iff in Hin as (k' & E & Hin').
  apply append_inj in E. injection E as ->. now apply Hk.
Qed.

(** After the flush of an object, the scan under the prefix that [_store]
    wrote with finds every field other than [__proto__]. *)
Lemma flushed_fields_loaded (el : Workspace.element)
  (l : list (string * jsval)) (st : Storage) :
  wf_storage st -> distinct (map fst l) = true ->
  all_succeed (field_writes el (VObj l)) st = true ->
  let bare := ToString (js_or (Workspace.dataPrefix el) (VStr "")) in
  exists r,
    load_loop (bare ++ ".") VUndefined
      (write_all (field_writes el (VObj l)) st)
      (Storage_length (write_all (field_writes el (VObj l)) st)) 0
      empty_object = Ok r
    /\ (forall f x, In (f, x) l -> f <> "__proto__" ->
                    obj_find (own r) f = Some (unwrap (VStr (stored x))))
    /\ (forall k, ~ In k (map fst l) -> k <> "__proto__" ->
                  obj_find (own r) k
                  = decoded (getItem st (bare ++ "." ++ k))).
Proof.
  intros Hwf Hd Hall bare. apply distinct_NoDup in Hd.
  rewrite field_writes_object in *. fold bare in Hall |- *.
  set (g := fun field => ToString (wrap (obj_get l field))) in *.
  destruct (write_all_spec _ st (field_keys_NoDup bare g _ Hd) Hall Hwf)
    as (Hwf' & Hin & Hout).
  destruct (load_loop_mapping (bare ++ ".") None _ Hwf')
    as (r & Hr & _ & Hk & _).
  exists r. split; [exact Hr|]. split.
  - intros f x Hfx Hne. rewrite Hk. cbn [in_scope]. rewrite append_assoc.
    destruct (String.eqb_spec f "__proto__") as [E|_]; [now elim Hne|].
    assert (Hi : In (bare ++ "." ++ f, g f)
                   (map (fun field => (bare ++ "." ++ field, g field))
                      (map fst l))).
    { apply in_map_iff. exists f. split; trivial.
      change f with (fst (f, x)). now apply in_map. }
    apply Hin in Hi. cbn [fst snd] in Hi. rewrite Hi.
    cbn [decoded option_map]. unfold g.
    now rewrite (obj_get_in l f x Hd Hfx).
  - intros k Hk' Hne. rewrite Hk. cbn [in_scope]. rewrite append_assoc.
    destruct (String.eqb_spec k "__proto__") as [E|_]; [now elim Hne|].
    rewrite Hout; trivial. rewrite map_map. cbn [fst].
    intros Hin'. apply in_map_iff in Hin' as (f & E & Hf).
    apply append_inj in E. injection E as ->. now apply Hk'.
Qed.

(** X19.  [store], 500 ms, [load] on the current element: when the
    workspace is an object with distinct field names and every write
    succeeds, [load()] afterwards maps each field other than [__proto__]
    to what [unwrap] makes of the text stored for it ([unwrap (wrap x)]
    for a field value [x] that is neither [undefined] nor [null]), and
    every other key under the prefix, [__proto__] excepted, to what it
    held before. *)
Theorem workspace_store_then_load (el : Workspace.element) (p : string)
  (l : list (string * jsval)) (d : nat) (w : World) :
  Workspace.dataPrefix el = VStr p ->
  owns_timers (el, w) -> wf_storage (ls w) ->
  distinct (map fst l) = true ->
  all_succeed (field_writes el (VObj l)) (ls w) = true ->
  500 <= d ->
  let s' := Workspace.advance d (Workspace.store (VObj l) (el, w)) in
  exists m,
    Workspace.load (fst s') (snd s') = Ok (VObj m)
    /\ (forall f x, In (f, x) l -> f <> "__proto__" ->
                    obj_find m f = Some (unwrap (VStr (stored x)))
                    /\ (x <> VUndefined -> x <> VNull ->
                        obj_find m f = Some (unwrap (wrap x))))
    /\ (forall k, ~ In k (map fst l) -> k <> "__proto__" ->
                  obj_find m k = decoded (getItem (ls w) (p ++ "." ++ k))).
Proof.
  intros Hp Hown Hwf Hd Hall Hdue. cbv zeta.
  rewrite (store_advance_due (VObj l) d el w Hown Hdue).
  destruct (flushed_fields_loaded el l (ls w) Hwf Hd Hall) as (r & Hr & Hf & Hk).
  cbv zeta in Hr, Hk. rewrite Hp, string_prefix_text in Hr, Hk.
  exists (own r). unfold Workspace.load, Workspace.load_object.
  cbn [fst snd ls Workspace.dataPrefix].
  rewrite Hp. cbn [ToString]. rewrite Hr. split; [reflexivity|].
  split; [|exact Hk].
  intros f x Hfx Hne. split; [now apply Hf|].
  intros Hu Hn. rewrite (Hf f x Hfx Hne). now rewrite wrap_stored.
Qed.

Lemma workspace_store_then_load_witness :
  let s' := Workspace.advance 500
              (Workspace.store workspace_one
                 (Workspace.create, window sample_items 1000)) in
  exists m,
    Workspace.load (fst s') (snd s') = Ok (VObj m)
    /\ obj_find m "a" = Some (VNum 1)
    /\ obj_find m "b" = Some (VStr "x").
Proof.
  cbv zeta.
  destruct (workspace_store_then_load Workspace.create "_arcworkspace"
              [("a", VNum 1); ("b", VStr "x")] 500 (window sample_items 1000)
              eq_refl (fresh_owns_timers _ _ _) sample_items_wf eq_refl eq_refl
              ltac:(lia)) as (m & Hl & Hf & _).
  exists m. split; [exact Hl|]. split.
  - destruct (Hf "a" (VNum 1)) as [H _];
      [now left | discriminate | rewrite H; reflexivity].
  - destruct (Hf "b" (VStr "x")) as [H _];
      [right; now left | discriminate | rewrite H; reflexivity].
Defined.

(** X20.  The same on a receiver whose [dataPrefix] reads [undefined] (the
    current element after its [dataPrefix] was unset; what the methods of
    the legacy class, which declares no [dataPrefix], see): the fields are
    written under ["." + field], and both the current and the legacy
    [load()] scan ["."] and find them there, each field other than
    [__proto__] mapped to what [unwrap] makes of the text stored for it.
    So the workspace is read back although no prefix is configured. *)
Theorem legacy_store_then_load (el : Workspace.element)
  (l : list (string * jsval)) (d : nat) (w : World) :
  Workspace.dataPrefix el = VUndefined ->
  owns_timers (el, w) -> wf_storage (ls w) ->
  distinct (map fst l) = true ->
  all_succeed (field_writes el (VObj l)) (ls w) = true ->
  500 <= d ->
  let s' := Workspace.advance d (Workspace.store (VObj l) (el, w)) in
  exists m,
    Workspace.load_legacy (fst s') (snd s') = Ok (VObj m)
    /\ Workspace.load (fst s') (snd s') = Ok (VObj m)
    /\ (forall f x, In (f, x) l ->
                    getItem (ls (snd s')) ("." ++ f) = Some (stored x)
                    /\ (f <> "__proto__" ->
                        obj_find m f = Some (unwrap (VStr (stored x))))).
Proof.
  intros Hp Hown Hwf Hd Hall Hdue. cbv zeta.
  rewrite (store_advance_due (VObj l) d el w Hown Hdue).
  destruct (flushed_fields_loaded el l (ls w) Hwf Hd Hall) as (r & Hr & Hf & _).
  cbv zeta in Hr. rewrite Hp in Hr. cbn [js_or truthy ToString append] in Hr.
  exists (own r).
  unfold Workspace.load_legacy, Workspace.load_object_legacy,
    Workspace.load, Workspace.load_object.
  cbn [fst snd ls Workspace.dataPrefix Workspace.set_pending].
  rewrite Hp. cbn [js_or truthy ToString append]. rewrite Hr.
  do 2 (split; [reflexivity|]).
  intros f x Hfx. split; [|now apply (Hf f x)].
  apply distinct_NoDup in Hd.
  rewrite field_writes_object in *. rewrite Hp in *.
  cbn [js_or truthy ToString append] in *.
  destruct (write_all_spec _ (ls w)
              (field_keys_NoDup "" (fun field => ToString (wrap (obj_get l field)))
                 _ Hd) Hall Hwf) as (_ & Hin & _).
  unfold stored. rewrite <- (obj_get_in l f x Hd Hfx).
  apply (Hin ("." ++ f, ToString (wrap (obj_get l f)))).
  apply in_map_iff. exists f. split; trivial.
  change f with (fst (f, x)). now apply in_map.
Qed.

Lemma legacy_store_then_load_witness :
  let s' := Workspace.advance 500
              (Workspace.store workspace_one
                 (unset_workspace, window [] 1000)) in
  exists m,
    Workspace.load_legacy (fst s') (snd s') = Ok (VObj m)
    /\ Workspace.load (fst s') (snd s') = Ok (VObj m)
    /\ obj_find m "a" = Some (VNum 1)
    /\ getItem (ls (snd s')) ".a" = Some (stored (VNum 1)).
Proof.
  cbv zeta.
  destruct (legacy_store_then_load unset_workspace
              [("a", VNum 1); ("b", VStr "x")] 500 (window [] 1000)
              eq_refl (fresh_owns_timers _ _ _) (NoDup_nil _) eq_refl eq_refl
              ltac:(lia)) as (m & Hl & Hc & Hf).
  exists m. split; [exact Hl|]. split; [exact Hc|].
  destruct (Hf "a" (VNum 1)) as [H1 H2]; [now left|].
  split; [rewrite H2 by discriminate; reflexivity | exact H1].
Defined.

(* ================================================================= *)
(** * The event handlers of the workspace store *)

(** X21.  A workspace write request is fire and forget: for a cancelable
    request that nobody has handled yet and whose value is truthy,
    [_changeHandler] prevents the default and stops the propagation, puts
    no result on the event, writes nothing at once, and 500 ms later the
    [setItem] calls for the fields of the value have been made. *)
Theorem workspace_request_persisted (e : CustomEvent) (d : nat)
  (s : Workspace.element * World) :
  cancelable e = true -> defaultPrevented e = false ->
  truthy (value (detail e)) = true ->
  owns_timers s -> 500 <= d ->
  let e' := fst (Workspace._changeHandler e s) in
  let s1 := snd (Workspace._changeHandler e s) in
  let s2 := Workspace.advance d s1 in
  defaultPrevented e' = true
  /\ propagationStopped e' = true
  /\ result (detail e') = result (detail e)
  /\ setItem_calls (snd s1) = setItem_calls (snd s)
  /\ Workspace.__pendingWorkspace (fst s1) = value (detail e)
  /\ setItem_calls (snd s2)
     = (setItem_calls (snd s) ++ field_writes (fst s) (value (detail e)))%list
  /\ ls (snd s2) = write_all (field_writes (fst s) (value (detail e))) (ls (snd s)).
Proof.
  intros Hc Hp Hv Hown Hd. destruct s as [el w]. cbv zeta.
  unfold Workspace._changeHandler. rewrite Hc, Hp. cbn [negb orb].
  cbn [stopPropagation preventDefault detail]. rewrite Hv. cbn [negb fst snd].
  rewrite (store_advance_due _ d el w Hown Hd).
  rewrite (store_spec _ el w Hown). cbn. rewrite Hc. repeat split.
Qed.

Lemma workspace_request_persisted_witness :
  let e := write_request VUndefined workspace_two true false in
  let s := (Workspace.create, window [] 1000) in
  setItem_calls (snd (Workspace.advance 500
                        (snd (Workspace._changeHandler e s))))
  = [("_arcworkspace.c", stored (VArr [VNum 1]))].
Proof.
  cbv zeta.
  destruct (workspace_request_persisted
              (write_request VUndefined workspace_two true false) 500
              (Workspace.create, window [] 1000) eq_refl eq_refl eq_refl
              (fresh_owns_timers _ _ _) ltac:(lia))
    as (_ & _ & _ & _ & _ & Hc & _).
  rewrite Hc. reflexivity.
Defined.

(** X22.  A workspace read request: for a request that nobody has handled
    yet and a string prefix, the read handler of the current element stops
    the propagation and puts on the event a promise resolved with the
    object that [load] returns: apart from the key [__proto__], which it
    never has, it maps every key under the prefix to its decoded value; a
    pending workspace that is not yet flushed is not part of the answer.
    As in the preferences store, [cancelable] is not looked at. *)
Theorem workspace_read_request_answered (p : string) (e : CustomEvent)
  (s : Workspace.element * World) :
  Workspace.dataPrefix (fst s) = VStr p -> wf_storage (ls (snd s)) ->
  defaultPrevented e = false ->
  exists m,
    result (detail (WorkspaceBridge._readHandler e s))
    = Some (Resolved (VObj m))
    /\ (forall k, k <> "__proto__" ->
                  obj_find m k
                  = decoded (getItem (ls (snd s)) (p ++ "." ++ k)))
    /\ obj_find m "__proto__" = None
    /\ propagationStopped (WorkspaceBridge._readHandler e s) = true
    /\ defaultPrevented (WorkspaceBridge._readHandler e s) = cancelable e.
Proof.
  intros Hp Hwf Hd.
  destruct (load_loop_mapping (p ++ ".") None (ls (snd s)) Hwf)
    as (r & Hr & _ & Hk & _).
  exists (own r). unfold WorkspaceBridge._readHandler. rewrite Hd.
  unfold Workspace.load, Workspace.load_object. rewrite Hp. cbn [ToString].
  cbn [scope_value] in Hr. rewrite Hr. cbn.
  rewrite Hd. split; [reflexivity|]. split; [|split].
  - intros k Hne. rewrite Hk. cbn [in_scope]. rewrite append_assoc.
    destruct (String.eqb_spec k "__proto__") as [E|_]; [now elim Hne|].
    reflexivity.
  - now rewrite Hk.
  - split; [reflexivity|]. now destruct (cancelable e).
Qed.

Lemma pending_read_wf :
  wf_storage
    (ls (snd (Workspace.store workspace_one
                (Workspace.create,
                 window [("_arcworkspace.z", stored (VNum 9))] 1000)))).
Proof. unfold wf_storage. cbn. repeat constructor. intros []. Qed.

Lemma workspace_read_request_answered_witness :
  exists m,
    result (detail (WorkspaceBridge._readHandler
                      (read_request VUndefined true false)
                      (Workspace.store workspace_one
                         (Workspace.create,
                          window [("_arcworkspace.z", stored (VNum 9))] 1000))))
    = Some (Resolved (VObj m))
    /\ obj_find m "z" = Some (VNum 9)
    /\ obj_find m "a" = None.
Proof.
  destruct (workspace_read_request_answered "_arcworkspace"
              (read_request VUndefined true false)
              (Workspace.store workspace_one
                 (Workspace.create,
                  window [("_arcworkspace.z", stored (VNum 9))] 1000))
              eq_refl pending_read_wf eq_refl) as (m & Hr & Hk & _).
  exists m. split; [exact Hr|].
  rewrite !Hk by discriminate. split; reflexivity.
Defined.
